(** * Result extraction of oemof's solph results (outputlib/result_dict.py)

    A shallow embedding of [get_tuple], [get_timestep], [remove_timestep],
    [results_to_df] and [results_to_dict], together with the part of pandas
    and itertools these functions rely on, and the properties of the
    extraction layer proved about them. *)

From Stdlib Require Import ZArith QArith Lia.
From Stdlib Require OrdersEx.
From stdpp Require Import base option list strings pretty sorting.

Local Open Scope string_scope.
Local Open Scope Z_scope.
Local Open Scope list_scope.

(** ** Python values *)

(** Exceptions the extraction can surface.  The source defines no
    exception class of its own: every failure is one of Python's built-in
    exceptions, raised by the interpreter or by pandas. *)
Inductive exn := TypeError | ValueError | IndexError | KeyError.

Definition exn_name (e : exn) : string :=
  match e with
  | TypeError => "TypeError"
  | ValueError => "ValueError"
  | IndexError => "IndexError"
  | KeyError => "KeyError"
  end.

(** The outcome of a call: a returned value or a raised exception. *)
Inductive res (A : Type) := Ok (a : A) | Raise (e : exn).
Arguments Ok {A} a.
Arguments Raise {A} e.

#[global] Instance res_ret : MRet res := @Ok.
#[global] Instance res_bind : MBind res := λ A B f m,
  match m with
  | Ok a => f a
  | Raise e => Raise e
  end.

Definition is_ok {A} (r : res A) : bool :=
  match r with Ok _ => true | Raise _ => false end.

(** Modelled from the spec: the class [oemof.network.Node] is imported by
    result_dict.py but not part of the sources at hand.  An entity is a
    named node whose identity is its label; [str] of a node is that label
    and nodes are ordered by it. *)
Record Node := { label : string }.

#[global] Instance Node_eq_dec : EqDecision Node.
Proof. solve_decision. Defined.

(** Objects that are not tuples: [None], integers, strings and nodes. *)
Inductive atom :=
  | ANone
  | AInt (z : Z)
  | AStr (s : string)
  | ANode (n : Node).

#[global] Instance atom_eq_dec : EqDecision atom.
Proof. solve_decision. Defined.

(** An element of a Pyomo tuple: an atom, or an index tuple.  Pyomo keeps
    index tuples flat, so a tuple holds atoms. *)
Inductive pyobj :=
  | PAtom (a : atom)
  | PTuple (t : list atom).

#[global] Instance pyobj_eq_dec : EqDecision pyobj.
Proof. solve_decision. Defined.

(** [issubclass(type(n), Node)] *)
Definition is_node (a : atom) : bool :=
  match a with ANode _ => true | _ => false end.

(** ** The three index helpers *)

(** [get_tuple]: the first element of [x] that is a tuple is returned as it
    is, a node is wrapped into a 1-tuple, anything else is skipped.  When
    the loop ends without a [return] the function yields Python's [None],
    which is Rocq's [None] here. *)
Fixpoint get_tuple (x : list pyobj) : option (list atom) :=
  match x with
  | [] => None
  | PTuple t :: _ => Some t
  | PAtom (ANode n) :: _ => Some [ANode n]
  | PAtom _ :: x' => get_tuple x'
  end.

(** [all(issubclass(type(n), Node) for n in x)]; iterating over [None]
    raises [TypeError]. *)
Definition all_nodes (x : option (list atom)) : res bool :=
  match x with
  | None => Raise TypeError
  | Some t => Ok (forallb is_node t)
  end.

(** [x[-1]] on a tuple. *)
Definition item_last (t : list atom) : res atom :=
  match last t with
  | Some a => Ok a
  | None => Raise IndexError
  end.

(** [x[:-1]] on a tuple; slicing never raises. *)
Definition slice_init (t : list atom) : list atom := removelast t.

(** [get_timestep]; [x] is what [get_tuple] returned, a tuple or [None]. *)
Definition get_timestep (x : option (list atom)) : res atom :=
  b ← all_nodes x;
  if b : bool then Ok (AInt 0)
  else match x with
       | Some t => item_last t
       | None => Raise TypeError
       end.

(** [remove_timestep] *)
Definition remove_timestep (x : option (list atom)) : res (list atom) :=
  b ← all_nodes x;
  if b : bool then
    match x with Some t => Ok t | None => Raise TypeError end
  else
    match x with Some t => Ok (slice_init t) | None => Raise TypeError end.

(** ** Orders and sorting

    Python orders integers numerically, strings character by character and
    tuples lexicographically; nodes are ordered by their labels.  Python has
    no order between objects of different kinds; the embedding ranks them
    ([None], integers, strings, nodes) so that sorting is total.  The
    documented index shapes [(n, n, int)], [(n, n)] and [(n, int)] never
    compare objects of different kinds. *)
Definition atom_rank (a : atom) : Z :=
  match a with ANone => 0 | AInt _ => 1 | AStr _ => 2 | ANode _ => 3 end.

Definition atom_compare (a b : atom) : comparison :=
  match a, b with
  | AInt x, AInt y => Z.compare x y
  | AStr s, AStr t => String.compare s t
  | ANode n, ANode m => String.compare (label n) (label m)
  | _, _ => Z.compare (atom_rank a) (atom_rank b)
  end.

Fixpoint tuple_compare (s t : list atom) : comparison :=
  match s, t with
  | [], [] => Eq
  | [], _ :: _ => Lt
  | _ :: _, [] => Gt
  | a :: s', b :: t' =>
      match atom_compare a b with
      | Eq => tuple_compare s' t'
      | c => c
      end
  end.

Definition not_gt (c : comparison) : bool :=
  match c with Gt => false | _ => true end.

Definition atom_leb (a b : atom) : bool := not_gt (atom_compare a b).
Definition tuple_leb (s t : list atom) : bool := not_gt (tuple_compare s t).
Definition string_leb (s t : string) : bool := not_gt (String.compare s t).

(** A stable sort: an element is placed before the first element that is
    not smaller, so equal elements keep the order they came in. *)
Section Sort.
Context {A : Type} (leb : A → A → bool).

Fixpoint insert_sorted (x : A) (l : list A) : list A :=
  match l with
  | [] => [x]
  | y :: l' => if leb x y then x :: l else y :: insert_sorted x l'
  end.

Definition sort_by (l : list A) : list A := foldr insert_sorted [] l.
End Sort.

(** ** Dictionaries

    A Python [dict] as an association list in insertion order: assigning to
    a key that is present replaces its value in place, a new key goes to
    the end. *)
Section Dict.
Context {K : Type} `{EqDecision K} {V : Type}.

Fixpoint dict_get (k : K) (d : list (K * V)) : option V :=
  match d with
  | [] => None
  | (k', v) :: d' => if decide (k = k') then Some v else dict_get k d'
  end.

Fixpoint dict_set (k : K) (v : V) (d : list (K * V)) : list (K * V) :=
  match d with
  | [] => [(k, v)]
  | (k', v') :: d' =>
      if decide (k = k') then (k', v) :: d' else (k', v') :: dict_set k v d'
  end.

(** A dict comprehension [{k: v for ...}] over the pairs [l]. *)
Definition dict_of_items (l : list (K * V)) : list (K * V) :=
  foldl (λ d kv, dict_set kv.1 kv.2 d) [] l.
End Dict.

(** ** The solved model and the energy system *)

Definition timestamp := Z.

(** [es]: only its [timeindex] is read. *)
Record EnergySystem := { timeindex : list timestamp }.

(** A Pyomo variable component [bv]: [str(bv)], and for every index [i] of
    [bv._index] the value [bv[i].value], which is a number or [None]. *)
Record BlockVar := {
  bv_name : string;
  bv_index : list (pyobj * option Q)
}.

(** [om]: the variable components in the order [list(set(block_vars))]
    yields them; the suffix [om.dual], when the model has one, read through
    [om.dual[om.Bus.balance[bus, t]]]; and the keys of [om.Bus.balance]. *)
Record OperationalModel := {
  block_vars : list BlockVar;
  dual : option (list (Node * Z * Q));
  Bus_balance : list (Node * Z)
}.

(** [s.split('.')] *)
Fixpoint split_dot (s : string) : list string :=
  match s with
  | EmptyString => [EmptyString]
  | String c s' =>
      if Ascii.eqb c (Ascii.ascii_of_nat 46) then EmptyString :: split_dot s'
      else match split_dot s' with
           | p :: ps => String c p :: ps
           | [] => [String c EmptyString]
           end
  end.

Definition pyomo_key : Type := string * string * pyobj.

(** The key [(str(bv).split('.')[0], str(bv).split('.')[-1], i)]. *)
Definition block_key (bv : BlockVar) (i : pyobj) : pyomo_key :=
  let parts := split_dot (bv_name bv) in
  (default EmptyString (head parts), default EmptyString (last parts), i).

Definition var_dict (om : OperationalModel) : list (pyomo_key * option Q) :=
  dict_of_items
    (flat_map (λ bv, map (λ iv, (block_key bv iv.1, iv.2)) (bv_index bv))
              (block_vars om)).

(** The elements a Pyomo tuple is iterated over. *)
Definition elements (k : pyomo_key) : list pyobj :=
  [PAtom (AStr k.1.1); PAtom (AStr k.1.2); k.2].

(** ** results_to_df *)

Record df_row := {
  pyomo_tuple : pyomo_key;
  value : option Q;
  variable_name : string;
  oemof_tuple : list atom;
  timestep : atom
}.

(** [df.sort_values(['oemof_tuple', 'timestep'])] *)
Definition row_leb (r1 r2 : df_row) : bool :=
  match tuple_compare (oemof_tuple r1) (oemof_tuple r2) with
  | Lt => true
  | Gt => false
  | Eq => atom_leb (timestep r1) (timestep r2)
  end.

Definition sort_values (df : list df_row) : list df_row := sort_by row_leb df.

(** Each [Series.map] runs over the whole column before the next one
    starts, and stops at the first element on which the function raises. *)
Definition results_to_df (es : EnergySystem) (om : OperationalModel)
  : res (list df_row) :=
  let items := var_dict om in
  let tuples := map (λ kv, get_tuple (elements kv.1)) items in
  timesteps ← mapM get_timestep tuples;
  keys ← mapM remove_timestep tuples;
  Ok (sort_values
        (zip_with (λ kv kt,
           {| pyomo_tuple := kv.1; value := kv.2; variable_name := kv.1.1.2;
              oemof_tuple := kt.1; timestep := kt.2 |})
           items (zip keys timesteps))).

(** ** The part of pandas the assembler uses

    A [DataFrame] is kept column by column: its row labels and, for every
    column in order, the column's name and its cells.  A cell is a number
    or missing ([None]/[NaN], which [isnull] does not tell apart).  A
    [Series] taken from one row is a list of named cells. *)
Record frame (I : Type) := {
  index : list I;
  columns : list (string * list (option Q))
}.
Arguments index {I} f.
Arguments columns {I} f.

Definition series := list (string * option Q).

(** [df.groupby('oemof_tuple')]: one group per distinct key, the keys in
    ascending order, the rows of a group in the order of [df]. *)
Definition groupby_oemof_tuple (df : list df_row)
  : list (list atom * list df_row) :=
  map (λ k, (k, filter (λ r, oemof_tuple r = k) df))
      (sort_by tuple_leb (remove_dups (map oemof_tuple df))).

(** The cell of a pivot table: the value of the record with that time step
    and variable name, missing when there is none. *)
Definition cell (g : list df_row) (t : atom) (c : string) : option Q :=
  match list_find (λ r, timestep r = t ∧ variable_name r = c) g with
  | Some ir => value ir.2
  | None => None
  end.

(** [v.set_index('timestep').pivot(columns='variable_name', values='value')]:
    rows are the distinct time steps and columns the distinct variable
    names, both ascending; pandas raises [ValueError] ("Index contains
    duplicate entries, cannot reshape") when two records share a time step
    and a variable name. *)
Definition pivot (g : list df_row) : res (frame atom) :=
  if decide (NoDup (map (λ r, (timestep r, variable_name r)) g)) then
    let idx := sort_by atom_leb (remove_dups (map timestep g)) in
    let cols := sort_by string_leb (remove_dups (map variable_name g)) in
    Ok {| index := idx;
          columns := map (λ c, (c, map (λ t, cell g t c) idx)) cols |}
  else Raise ValueError.

(** [df.index = labels]: pandas raises [ValueError] ("Length mismatch")
    unless there are as many labels as rows. *)
Definition set_index {I J : Type} (f : frame I) (labels : list J)
  : res (frame J) :=
  if decide (length labels = length (index f)) then
    Ok {| index := labels; columns := columns f |}
  else Raise ValueError.

Definition isnull (v : option Q) : bool :=
  match v with None => true | Some _ => false end.

(** [df.isnull().any()] for one column. *)
Definition any_null (c : string * list (option Q)) : bool :=
  existsb isnull c.2.

(** [df.loc[:, mask]] *)
Definition loc_columns {I : Type} (mask : string * list (option Q) → bool)
    (f : frame I) : frame I :=
  {| index := index f; columns := List.filter mask (columns f) |}.

(** Row [i] has no missing cell. *)
Definition row_complete (cols : list (string * list (option Q))) (i : nat)
  : bool :=
  forallb (λ c, match c.2 !! i with Some (Some _) => true | _ => false end)
          cols.

(** [df.dropna()]: the rows with a missing cell are dropped; of a frame
    without columns every row stays. *)
Definition dropna {I : Type} (f : frame I) : frame I :=
  let keep := List.filter (row_complete (columns f))
                          (seq 0 (length (index f))) in
  {| index := omap (λ i, index f !! i) keep;
     columns := map (λ c, (c.1, map (λ i, default None (c.2 !! i)) keep))
                    (columns f) |}.

(** [df.iloc[0]]: the first row as a Series; [IndexError] when the frame
    has no row. *)
Definition iloc0 {I : Type} (f : frame I) : res series :=
  match index f with
  | [] => Raise IndexError
  | _ :: _ => Ok (map (λ c, (c.1, default None (head c.2))) (columns f))
  end.

(** [pd.DataFrame({'duals': duals}, index=labels)]: a list of one element
    is repeated over the whole index; any other list has to be as long as
    the index, or pandas raises [ValueError]. *)
Definition DataFrame_duals {I : Type} (duals : list Q) (labels : list I)
  : res (frame I) :=
  match duals with
  | [q] =>
      Ok {| index := labels;
            columns := [("duals", replicate (length labels) (Some q))] |}
  | _ =>
      if decide (length duals = length labels) then
        Ok {| index := labels; columns := [("duals", map Some duals)] |}
      else Raise ValueError
  end.

(** [df[c] = vals] for a list [vals]: [ValueError] unless it is as long as
    the index; a column of that name is replaced where it stands, a new one
    is added last. *)
Definition set_column {I : Type} (f : frame I) (c : string)
    (vals : list (option Q)) : res (frame I) :=
  if decide (length vals = length (index f)) then
    Ok {| index := index f; columns := dict_set c vals (columns f) |}
  else Raise ValueError.

(** ** results_to_dict *)

(** [{'scalars': ..., 'sequences': ...}] *)
Record entry := {
  scalars : series;
  sequences : frame timestamp
}.

Definition store := list (list atom * entry).

(** A [for] loop whose body may raise. *)
Fixpoint foldM {A B : Type} (f : B → A → res B) (b : B) (l : list A)
  : res B :=
  match l with
  | [] => Ok b
  | x :: l' => b' ← f b x; foldM f b' l'
  end.

(** The body of the first loop, for the rows [v] of one key. *)
Definition split_group (es : EnergySystem) (v : list df_row) : res entry :=
  p ← pivot v;
  f ← set_index p (timeindex es);
  s ← iloc0 (dropna (loc_columns any_null f));
  Ok {| scalars := s;
        sequences := loc_columns (λ c, negb (any_null c)) f |}.

Definition split_groups (es : EnergySystem)
    (df_dict : list (list atom * list df_row)) : res store :=
  foldM (λ results kv, e ← split_group es kv.2; Ok (dict_set kv.1 e results))
        [] df_dict.

(** [sorted(om.Bus.balance.iterkeys())]: pairs ordered by bus, then by time
    step. *)
Definition balance_leb (p q : Node * Z) : bool :=
  match String.compare (label p.1) (label q.1) with
  | Lt => true
  | Gt => false
  | Eq => Z.leb p.2 q.2
  end.

(** [itertools.groupby(l, lambda p: p[0])]: maximal runs of neighbours
    with the same bus. *)
Fixpoint groupby_bus (l : list (Node * Z)) : list (Node * list (Node * Z)) :=
  match l with
  | [] => []
  | p :: l' =>
      match groupby_bus l' with
      | (b, g) :: gs =>
          if decide (p.1 = b) then (b, p :: g) :: gs
          else (p.1, [p]) :: (b, g) :: gs
      | [] => [(p.1, [p])]
      end
  end.

(** [om.dual[om.Bus.balance[bus, t]]] *)
Definition dual_value (d : list (Node * Z * Q)) (bus : Node) (t : Z) : res Q :=
  match dict_get (bus, t) d with
  | Some q => Ok q
  | None => Raise KeyError
  end.

(** The body of the second loop, for one bus and its run of keys. *)
Definition add_bus_duals (es : EnergySystem) (d : list (Node * Z * Q))
    (results : store) (grp : Node * list (Node * Z)) : res store :=
  let bus := grp.1 in
  duals ← mapM (λ p, dual_value d bus p.2) grp.2;
  df ← DataFrame_duals duals (timeindex es);
  match dict_get [ANode bus] results with
  | None =>
      Ok (dict_set [ANode bus] {| scalars := []; sequences := df |} results)
  | Some e =>
      s ← set_column (sequences e) "duals" (map Some duals);
      Ok (dict_set [ANode bus] {| scalars := scalars e; sequences := s |}
                   results)
  end.

Definition add_duals (es : EnergySystem) (om : OperationalModel)
    (results : store) : res store :=
  match dual om with
  | None => Ok results
  | Some d =>
      foldM (add_bus_duals es d) results
            (groupby_bus (sort_by balance_leb (Bus_balance om)))
  end.

(** [str(e)] *)
Definition py_str (a : atom) : string :=
  match a with
  | ANone => "None"
  | AInt z => pretty z
  | AStr s => s
  | ANode n => label n
  end.

(** [tuple([str(e) for e in k])] *)
Definition str_key (k : list atom) : list atom := map (λ e, AStr (py_str e)) k.

(** [{tuple([str(e) for e in k]): v for k, v in results.items()}] *)
Definition keys_to_strings (results : store) : store :=
  dict_of_items (map (λ kv, (str_key kv.1, kv.2)) results).

Definition results_to_dict (es : EnergySystem) (om : OperationalModel)
    (keys_as_strings : bool) : res store :=
  df ← results_to_df es om;
  results ← split_groups es (groupby_oemof_tuple df);
  results ← add_duals es om results;
  Ok (if keys_as_strings then keys_to_strings results else results).

(** ** Vocabulary of the specification *)

(** The maximal leading sub-tuple of entity references of a raw index. *)
Fixpoint leading_entities (t : list atom) : list atom :=
  match t with
  | a :: t' => if is_node a then a :: leading_entities t' else []
  | [] => []
  end.

(** The first value of a column that is not missing. *)
Definition first_non_missing (l : list (option Q)) : option Q :=
  head (omap id l).

(** The classification as section 3 of the specification words it: a
    variable name that is null for all time steps is scalar, every other one
    is a sequence column. *)
Definition classified_by_all_null (es : EnergySystem) (v : list df_row)
  : Prop :=
  ∀ e p c, split_group es v = Ok e → pivot v = Ok p → c ∈ columns p →
    if forallb isnull c.2 then c.1 ∈ (scalars e).*1
    else c.1 ∈ (columns (sequences e)).*1.

(** The scalar value as section 4.2 of the specification words it: of a
    variable name with a missing time step the first non-missing value is
    taken. *)
Definition scalar_is_first_non_missing (es : EnergySystem) (v : list df_row)
  : Prop :=
  ∀ e p c, split_group es v = Ok e → pivot v = Ok p → c ∈ columns p →
    any_null c = true →
    dict_get c.1 (scalars e) = Some (first_non_missing c.2).

(** The columns of a sequence table other than ['duals']. *)
Definition other_columns {I : Type} (f : frame I)
  : list (string * list (option Q)) :=
  List.filter (λ c, negb (bool_decide (c.1 = "duals"))) (columns f).

(** [r'] differs from [r] at most by new entries keyed by the 1-tuple of a
    bus in [buses] and by the ['duals'] column of such entries. *)
Definition only_duals_added (buses : Node → Prop) (r r' : store) : Prop :=
  (∀ k e, dict_get k r = Some e →
     ∃ e', dict_get k r' = Some e' ∧
           scalars e' = scalars e ∧
           index (sequences e') = index (sequences e) ∧
           other_columns (sequences e') = other_columns (sequences e) ∧
           ((∀ b, buses b → k ≠ [ANode b]) → e' = e)) ∧
  (∀ k, dict_get k r = None → dict_get k r' ≠ None →
     ∃ b, buses b ∧ k = [ANode b]).

(** A list of balance keys in the order [sorted] leaves it in. *)
Abbreviation balance_sorted :=
  (StronglySorted (λ p q : Node * Z, balance_leb p q = true)).

(** The ['duals'] column of the frame built for a bus: its dual values,
    a single dual value being repeated for every time step. *)
Definition duals_over_timeindex (es : EnergySystem) (duals : list Q)
  : list (option Q) :=
  match duals with
  | [q] => replicate (length (timeindex es)) (Some q)
  | _ => map Some duals
  end.

(** The entry of a bus once its duals are attached: a new entry with the
    frame of the duals only, or the old entry with its ['duals'] column set
    to the list of the duals. *)
Definition with_duals (es : EnergySystem) (old : option entry)
    (duals : list Q) : entry :=
  match old with
  | None =>
      {| scalars := [];
         sequences :=
           {| index := timeindex es;
              columns := [("duals", duals_over_timeindex es duals)] |} |}
  | Some e =>
      {| scalars := scalars e;
         sequences :=
           {| index := index (sequences e);
              columns := dict_set "duals" (map Some duals)
                                  (columns (sequences e)) |} |}
  end.

(** A call fails with the exception of the given name. *)
Definition fails_with {A : Type} (r : res A) (name : string) : Prop :=
  ∃ e, r = Raise e ∧ exn_name e = name.

(** No element of a Pyomo tuple is a tuple or an entity. *)
Definition no_entity_reference (x : list pyobj) : Prop :=
  Forall (λ o, match o with
               | PAtom a => is_node a = false
               | PTuple _ => False
               end) x.

(** ** Sample data *)

Definition bel : Node := {| label := "bel" |}.
Definition pp_gas : Node := {| label := "pp_gas" |}.
Definition storage : Node := {| label := "storage" |}.

Definition es3 : EnergySystem := {| timeindex := [10; 11; 12] |}.

(** A model whose only variable is indexed by time steps alone. *)
Definition om_timestep_only : OperationalModel :=
  {| block_vars :=
       [{| bv_name := "Storage.level";
           bv_index := [(PAtom (AInt 0), Some (1 # 1))] |}];
     dual := None;
     Bus_balance := [] |}.

(** A solved model without any variable record and without duals. *)
Definition om_empty : OperationalModel :=
  {| block_vars := []; dual := None; Bus_balance := [] |}.

(** One flow with a dispatch sequence over three time steps and an
    investment scalar. *)
Definition om_invest : OperationalModel :=
  {| block_vars :=
       [{| bv_name := "Flow.flow";
           bv_index :=
             [(PTuple [ANode pp_gas; ANode bel; AInt 0], Some (10 # 1));
              (PTuple [ANode pp_gas; ANode bel; AInt 1], Some (20 # 1));
              (PTuple [ANode pp_gas; ANode bel; AInt 2], Some (30 # 1))] |};
        {| bv_name := "InvestmentFlow.invest";
           bv_index :=
             [(PTuple [ANode pp_gas; ANode bel], Some (500 # 1))] |}];
     dual := None;
     Bus_balance := [] |}.

(** Two variables of one node, each defined on a part of the time steps. *)
Definition om_sparse : OperationalModel :=
  {| block_vars :=
       [{| bv_name := "Block.a";
           bv_index :=
             [(PTuple [ANode storage; AInt 0], Some (1 # 1));
              (PTuple [ANode storage; AInt 2], Some (3 # 1))] |};
        {| bv_name := "Block.b";
           bv_index :=
             [(PTuple [ANode storage; AInt 1], Some (2 # 1));
              (PTuple [ANode storage; AInt 2], Some (4 # 1))] |}];
     dual := None;
     Bus_balance := [] |}.

(** The rows [results_to_df] yields, when it returns. *)
Definition df_of (es : EnergySystem) (om : OperationalModel) : list df_row :=
  match results_to_df es om with
  | Ok df => df
  | Raise _ => []
  end.



(** A variable of the bus [bel] over three time steps, with the duals
    given in [d] for the balance keys [ks]. *)
Definition om_bel (d : list (Node * Z * Q)) (ks : list (Node * Z))
  : OperationalModel :=
  {| block_vars :=
       [{| bv_name := "Bus.excess";
           bv_index :=
             [(PTuple [ANode bel; AInt 0], Some (0 # 1));
              (PTuple [ANode bel; AInt 1], Some (5 # 1));
              (PTuple [ANode bel; AInt 2], Some (0 # 1))] |}];
     dual := Some d;
     Bus_balance := ks |}.

Definition om_duals : OperationalModel :=
  om_bel [((bel, 0), 11 # 10); ((bel, 1), 22 # 10); ((bel, 2), 33 # 10)]
         [(bel, 2); (bel, 0); (bel, 1)].

Definition om_duals_short : OperationalModel :=
  om_bel [((bel, 0), 11 # 10); ((bel, 1), 22 # 10)] [(bel, 0); (bel, 1)].



(** The entry of the bus [bel] before and after its duals are attached. *)
Definition entry_bel : entry :=
  {| scalars := [];
     sequences :=
       {| index := [10; 11; 12];
          columns := [("excess", [Some (0 # 1); Some (5 # 1);
                                  Some (0 # 1)])] |} |}.

Definition entry_bel_duals : entry :=
  {| scalars := [];
     sequences :=
       {| index := [10; 11; 12];
          columns := [("excess", [Some (0 # 1); Some (5 # 1); Some (0 # 1)]);
                      ("duals", [Some (11 # 10); Some (22 # 10);
                                 Some (33 # 10)])] |} |}.

(** ** Vocabulary of the further properties *)

(** A three-way comparison that is a total order: reflexive, [Eq] only on
    equal arguments, antisymmetric, and transitive on [Lt]. *)
Record cmp_ok {A : Type} (cmp : A → A → comparison) : Prop := {
  cmp_refl : ∀ x, cmp x x = Eq;
  cmp_eq : ∀ x y, cmp x y = Eq → x = y;
  cmp_antisym : ∀ x y, cmp y x = CompOpp (cmp x y);
  cmp_trans : ∀ x y z, cmp x y = Lt → cmp y z = Lt → cmp x z = Lt
}.

(** The pairs the dict comprehension of [results_to_df] runs over, before
    they are put into the dict. *)
Definition var_items (om : OperationalModel) : list (pyomo_key * option Q) :=
  flat_map (λ bv, map (λ iv, (block_key bv iv.1, iv.2)) (bv_index bv))
           (block_vars om).

(** The row of a record whose index holds a tuple or a node. *)
Definition row_of (kv : pyomo_key * option Q) : df_row :=
  let t := default [] (get_tuple (elements kv.1)) in
  {| pyomo_tuple := kv.1;
     value := kv.2;
     variable_name := kv.1.1.2;
     oemof_tuple := if forallb is_node t then t else removelast t;
     timestep := if forallb is_node t then AInt 0
                 else default (AInt 0) (last t) |}.

(** The rows of one relation key, as [groupby] hands them out. *)
Definition rows_of_key (k : list atom) (df : list df_row) : list df_row :=
  filter (λ r, oemof_tuple r = k) df.

(** An entry as [results_to_dict] returns it: the sequence table is
    labelled by the time index, each of its columns has one number per time
    step, and every scalar is a number. *)
Definition entry_wf (es : EnergySystem) (e : entry) : Prop :=
  index (sequences e) = timeindex es ∧
  Forall (λ c, length c.2 = length (timeindex es) ∧
               Forall (λ x, isnull x = false) c.2)
         (columns (sequences e)) ∧
  Forall (λ s, isnull s.2 = false) (scalars e).

(** A string without a dot. *)
Fixpoint no_dot (s : string) : bool :=
  match s with
  | EmptyString => true
  | String c s' => negb (Ascii.eqb c (Ascii.ascii_of_nat 46)) && no_dot s'
  end.

(** A component whose name has three dot-separated parts. *)
Definition bv_nested : BlockVar :=
  {| bv_name := "Storage.sub.level";
     bv_index := [(PTuple [ANode storage; AInt 0], Some (1 # 1))] |}.

(** The time steps of the rows of a relation key, ascending. *)
Definition time_steps (v : list df_row) : list atom :=
  sort_by atom_leb (remove_dups (map timestep v)).

(** The table [pivot] builds when no two rows share time step and
    variable name. *)
Definition pivot_table (v : list df_row) : frame atom :=
  {| index := time_steps v;
     columns :=
       map (λ c, (c, map (λ t, cell v t c) (time_steps v)))
           (sort_by string_leb (remove_dups (map variable_name v))) |}.

(** The columns of the pivot table with a missing value: the scalars. *)
Definition scalar_columns (v : list df_row)
  : list (string * list (option Q)) :=
  List.filter any_null (columns (pivot_table v)).

(** No two rows share time step and variable name. *)
Definition no_duplicate_cells (v : list df_row) : Prop :=
  NoDup (map (λ r, (timestep r, variable_name r)) v).

(** There are as many distinct time steps as the time index is long. *)
Definition aligned (es : EnergySystem) (v : list df_row) : Prop :=
  length (remove_dups (map timestep v)) = length (timeindex es).

#[global] Instance no_duplicate_cells_dec (v : list df_row) :
  Decision (no_duplicate_cells v).
Proof. unfold no_duplicate_cells. apply _. Defined.

#[global] Instance aligned_dec (es : EnergySystem) (v : list df_row) :
  Decision (aligned es v).
Proof. unfold aligned. apply _. Defined.


(** Python's three-way comparison of two atoms, where [<] is defined:
    between two integers, two strings or two nodes.  Between objects of
    different kinds, and on [None], [<] raises. *)
Definition py_compare (a b : atom) : option comparison :=
  match a, b with
  | AInt x, AInt y => Some (Z.compare x y)
  | AStr s, AStr t => Some (String.compare s t)
  | ANode n, ANode m => Some (String.compare (label n) (label m))
  | _, _ => None
  end.

(** Python's comparison of two tuples: elements are skipped while they are
    equal, and only the first pair that differs is compared with [<]. *)
Fixpoint py_tuple_compare (s t : list atom) : option comparison :=
  match s, t with
  | [], [] => Some Eq
  | [], _ :: _ => Some Lt
  | _ :: _, [] => Some Gt
  | a :: s', b :: t' =>
      if decide (a = b) then py_tuple_compare s' t' else py_compare a b
  end.

(** An index of the shapes the extraction is written for: entities,
    optionally followed by an integer time step. *)
Definition index_shape (t : list atom) : bool :=
  forallb is_node t
  || (forallb is_node (removelast t)
      && match last t with Some (AInt _) => true | _ => false end).

(** Every record index that holds a tuple or a node has such a shape.
    The relation keys are then tuples of nodes and the time steps integers,
    so that sorting them compares objects of one kind only. *)
Definition comparable_indices (om : OperationalModel) : Prop :=
  ∀ kv t, kv ∈ var_dict om → get_tuple (elements kv.1) = Some t →
          index_shape t = true.

(** A number that a 64-bit float holds exactly, so that the conversion of
    a table to [float64] leaves it as it is: [n / 2^k] with [|n| ≤ 2^53]
    and [k ≤ 1022] (not every float is of this form, but every such number
    is a float). *)
Definition float64_exact (q : Q) : bool :=
  let den := Z.pos (Qden q) in
  Z.leb (Z.abs (Qnum q)) (2 ^ 53)
  && Z.eqb den (2 ^ Z.log2 den)
  && Z.leb (Z.log2 den) 1022.

(** The values recorded in the rows are such numbers, or missing. *)
Definition float_values (v : list df_row) : Prop :=
  ∀ r q, r ∈ v → value r = Some q → float64_exact q = true.

(** Two blocks with a variable of the same name over the same index. *)
Definition om_same_name : OperationalModel :=
  {| block_vars :=
       [{| bv_name := "InvestmentFlow.invest";
           bv_index := [(PTuple [ANode pp_gas; ANode bel], Some (5 # 1))] |};
        {| bv_name := "Flow.invest";
           bv_index := [(PTuple [ANode pp_gas; ANode bel], Some (6 # 1))] |}];
     dual := None;
     Bus_balance := [] |}.

(** The bus [bel] with a balance key at time step 2 that has no dual. *)
Definition om_dual_missing : OperationalModel :=
  om_bel [((bel, 0), 11 # 10); ((bel, 1), 22 # 10)]
         [(bel, 0); (bel, 1); (bel, 2)].

(** [om_invest] with its components listed the other way round. *)
Definition om_invest_rev : OperationalModel :=
  {| block_vars := reverse (block_vars om_invest);
     dual := dual om_invest;
     Bus_balance := Bus_balance om_invest |}.

(** [om_duals] with its balance keys handed out in ascending order. *)
Definition om_duals_ordered : OperationalModel :=
  om_bel [((bel, 0), 11 # 10); ((bel, 1), 22 # 10); ((bel, 2), 33 # 10)]
         [(bel, 0); (bel, 1); (bel, 2)].

(** * Properties *)

(** ** The exception monad *)

Lemma bind_Ok {A B : Type} (m : res A) (f : A → res B) (b : B) :
  m ≫= f = Ok b → ∃ a, m = Ok a ∧ f a = Ok b.
Proof. destruct m as [a|e]; simpl; [eauto | discriminate]. Qed.

Lemma bind_Ok_l {A B : Type} (a : A) (f : A → res B) : Ok a ≫= f = f a.
Proof. done. Qed.

Ltac inv_bind H :=
  let a := fresh "a" in
  let Ha := fresh "H" a in
  apply bind_Ok in H; destruct H as (a & Ha & H).

Lemma mapM_Ok_length {A B : Type} (f : A → res B) (l : list A) (k : list B) :
  mapM f l = Ok k → length k = length l.
Proof.
  revert k; induction l as [|x l IH]; intros k H; simpl in H.
  - by injection H as <-.
  - inv_bind H. inv_bind H. injection H as <-. simpl. f_equal. eauto.
Qed.

Lemma mapM_Ok_Forall2 {A B : Type} (f : A → res B) (l : list A) (k : list B) :
  mapM f l = Ok k ↔ Forall2 (λ x y, f x = Ok y) l k.
Proof.
  split.
  - revert k; induction l as [|x l IH]; intros k H; simpl in H.
    + injection H as <-. constructor.
    + inv_bind H. inv_bind H. injection H as <-. constructor; eauto.
  - induction 1 as [|x y l k Hx _ IH]; simpl; [done|].
    rewrite Hx; simpl. rewrite IH. done.
Qed.

(** When every element either succeeds or raises [e], and one raises, the
    whole [map] raises [e]. *)
Lemma mapM_Raise {A B : Type} (f : A → res B) (e : exn) (l : list A) :
  (∀ x, x ∈ l → is_ok (f x) = true ∨ f x = Raise e) →
  (∃ x, x ∈ l ∧ f x = Raise e) →
  mapM f l = Raise e.
Proof.
  induction l as [|x l IH]; intros Hall (y & Hy & Hfy).
  - by apply elem_of_nil in Hy.
  - simpl. destruct (Hall x) as [Hx|Hx]; [by left | |].
    + destruct (f x) as [b|e'] eqn:Hfx; [|discriminate]. simpl.
      apply elem_of_cons in Hy as [->|Hy]; [congruence|].
      rewrite IH; [done | | eauto].
      intros z Hz. apply Hall. by right.
    + by rewrite Hx.
Qed.

(** ** The index helpers *)

Lemma get_timestep_tuple (t : list atom) :
  get_timestep (Some t) =
    Ok (if forallb is_node t then AInt 0 else default (AInt 0) (last t)).
Proof.
  unfold get_timestep; simpl.
  destruct (forallb is_node t) eqn:Hall; [done|].
  unfold item_last. destruct t as [|a t]; [discriminate|].
  destruct (last (a :: t)) eqn:Hl; [done|].
  by apply last_None in Hl.
Qed.

Lemma remove_timestep_tuple (t : list atom) :
  remove_timestep (Some t) =
    Ok (if forallb is_node t then t else removelast t).
Proof.
  unfold remove_timestep; simpl. by destruct (forallb is_node t).
Qed.

Lemma forallb_is_node_nodes (ns : list Node) :
  forallb is_node (map ANode ns) = true.
Proof. induction ns; simpl; auto. Qed.

Lemma leading_entities_app (ns : list Node) (tl : list atom) :
  match tl with a :: _ => is_node a = false | [] => True end →
  leading_entities (map ANode ns ++ tl) = map ANode ns.
Proof.
  intros Htl. induction ns as [|n ns IH]; simpl.
  - destruct tl as [|a tl]; simpl; [done|]. by rewrite Htl.
  - by rewrite IH.
Qed.

Lemma get_tuple_no_entity (x : list pyobj) :
  no_entity_reference x → get_tuple x = None.
Proof.
  induction 1 as [|o x Ho _ IH]; simpl; [done|].
  destruct o as [[]|]; try done.
Qed.

Lemma removelast_app_last (x : list atom) (t : atom) :
  last x = Some t → removelast x ++ [t] = x.
Proof.
  induction x as [|a x IH]; [discriminate|].
  destruct x as [|b x]; simpl in *.
  - by intros [= ->].
  - intros H. f_equal. by apply IH.
Qed.

(** C9: the decomposition of a non-empty raw index tuple into relation key
    and time step is lossless.  When every element is a node the time step
    is 0 and the tuple is returned unchanged; otherwise the time step is the
    last element, and putting it back behind [remove_timestep x] gives [x]. *)
Theorem timestep_decomposition_lossless (x : list atom) :
  x ≠ [] →
  if forallb is_node x
  then get_timestep (Some x) = Ok (AInt 0) ∧ remove_timestep (Some x) = Ok x
  else ∃ t k, last x = Some t ∧ get_timestep (Some x) = Ok t ∧
              remove_timestep (Some x) = Ok k ∧ k ++ [t] = x.
Proof.
  intros Hx. rewrite get_timestep_tuple, remove_timestep_tuple.
  destruct (forallb is_node x); [done|].
  destruct (last x) as [t|] eqn:Hl; [|by apply last_None in Hl].
  exists t, (removelast x). simpl. auto using removelast_app_last.
Qed.

Lemma timestep_decomposition_lossless_witness :
  ∃ t k, last [ANode {| label := "bel" |}; AInt 3] = Some t ∧
         get_timestep (Some [ANode {| label := "bel" |}; AInt 3]) = Ok t ∧
         remove_timestep (Some [ANode {| label := "bel" |}; AInt 3]) = Ok k ∧
         k ++ [t] = [ANode {| label := "bel" |}; AInt 3].
Proof.
  exact (timestep_decomposition_lossless
           [ANode {| label := "bel" |}; AInt 3] ltac:(discriminate)).
Defined.

(** C1: for a raw index made of one or two entity references, optionally
    followed by one element that is not an entity, the normalizer's relation
    key is the maximal leading sub-tuple of entity references and has length
    1 or 2; the time step is the trailing non-entity element when there is
    one and 0 otherwise.  A variable indexed by a single node gets the
    1-tuple of that node and time step 0. *)
Theorem normalizer_key_and_timestep
    (block var : string) (ns : list Node) (tl : list atom) :
  (length ns = 1 ∨ length ns = 2)%nat →
  (tl = [] ∨ ∃ a, tl = [a] ∧ is_node a = false) →
  let raw := map ANode ns ++ tl in
  let x := get_tuple (elements (block, var, PTuple raw)) in
  remove_timestep x = Ok (leading_entities raw) ∧
  leading_entities raw = map ANode ns ∧
  (length (leading_entities raw) = 1 ∨ length (leading_entities raw) = 2)%nat ∧
  get_timestep x = Ok (match tl with a :: _ => a | [] => AInt 0 end) ∧
  ∀ n : Node,
    let x1 := get_tuple (elements (block, var, PAtom (ANode n))) in
    remove_timestep x1 = Ok [ANode n] ∧ get_timestep x1 = Ok (AInt 0).
Proof.
  intros Hlen Htl raw x. subst x; simpl.
  rewrite get_timestep_tuple, remove_timestep_tuple.
  assert (leading_entities raw = map ANode ns) as Hlead.
  { apply leading_entities_app. destruct Htl as [->|(a & -> & Ha)]; done. }
  rewrite Hlead, length_map.
  destruct Htl as [->|(a & -> & Ha)]; subst raw.
  - rewrite app_nil_r, forallb_is_node_nodes. done.
  - assert (forallb is_node (map ANode ns ++ [a]) = false) as ->.
    { rewrite forallb_app. simpl. rewrite Ha. by rewrite andb_false_r. }
    rewrite List.removelast_last, last_snoc. done.
Qed.

Lemma normalizer_key_and_timestep_witness :
  remove_timestep
    (get_tuple (elements ("Flow", "flow",
                          PTuple [ANode pp_gas; ANode bel; AInt 3])))
    = Ok [ANode pp_gas; ANode bel] ∧
  get_timestep
    (get_tuple (elements ("Flow", "flow",
                          PTuple [ANode pp_gas; ANode bel; AInt 3])))
    = Ok (AInt 3).
Proof.
  destruct (normalizer_key_and_timestep "Flow" "flow" [pp_gas; bel] [AInt 3]
              (or_intror eq_refl)
              (or_intror (ex_intro _ (AInt 3) (conj eq_refl eq_refl))))
    as (Hkey & _ & _ & Ht & _).
  split; [exact Hkey | exact Ht].
Defined.

(** ** Records without an entity reference *)

Lemma results_to_df_None (es : EnergySystem) (om : OperationalModel) :
  (∃ kv, kv ∈ var_dict om ∧ get_tuple (elements kv.1) = None) →
  results_to_df es om = Raise TypeError.
Proof.
  intros (kv & Hkv & Hnone). unfold results_to_df.
  rewrite (mapM_Raise get_timestep TypeError); [done| |].
  - intros [t|] _; [left | right; done].
    by rewrite get_timestep_tuple.
  - exists None. split; [|done].
    apply list_elem_of_fmap. exists kv. auto.
Qed.

(** C6, as the code has it: a record whose Pyomo tuple holds no tuple and
    no entity makes [get_tuple] return [None] without raising; the
    extraction then stops with a [TypeError] when [get_timestep] iterates
    over that [None], and no result is produced. *)
Theorem missing_index_raises_TypeError
    (es : EnergySystem) (om : OperationalModel) (kv : pyomo_key * option Q)
    (keys_as_strings : bool) :
  kv ∈ var_dict om →
  no_entity_reference (elements kv.1) →
  get_tuple (elements kv.1) = None ∧
  results_to_df es om = Raise TypeError ∧
  results_to_dict es om keys_as_strings = Raise TypeError.
Proof.
  intros Hkv Hno. pose proof (get_tuple_no_entity _ Hno) as Hnone.
  assert (results_to_df es om = Raise TypeError) as Hdf
    by (apply results_to_df_None; eauto).
  unfold results_to_dict. rewrite Hdf. done.
Qed.

Lemma missing_index_raises_TypeError_witness :
  get_tuple (elements ("Storage", "level", PAtom (AInt 0))) = None ∧
  results_to_df es3 om_timestep_only = Raise TypeError ∧
  results_to_dict es3 om_timestep_only false = Raise TypeError.
Proof.
  apply (missing_index_raises_TypeError es3 om_timestep_only
           (("Storage", "level", PAtom (AInt 0)), Some (1 # 1)) false).
  - vm_compute. left.
  - repeat constructor.
Defined.

(** C6, as stated, fails: for a variable indexed by a time step alone the
    extraction does not fail with a MissingIndexError; [get_tuple] returns
    [None] and the failure is the [TypeError] of the next step. *)
Lemma missing_index_no_MissingIndexError :
  no_entity_reference (elements ("Storage", "level", PAtom (AInt 0))) ∧
  get_tuple (elements ("Storage", "level", PAtom (AInt 0))) = None ∧
  results_to_df es3 om_timestep_only = Raise TypeError ∧
  ¬ fails_with (results_to_df es3 om_timestep_only) "MissingIndexError".
Proof.
  split; [repeat constructor|]. split; [done|]. split; [done|].
  intros (e & He & Hname). vm_compute in He. injection He as <-.
  discriminate.
Qed.

(** ** Empty input *)

Lemma var_dict_no_records (om : OperationalModel) :
  Forall (λ bv, bv_index bv = []) (block_vars om) → var_dict om = [].
Proof.
  intros H. unfold var_dict.
  replace (flat_map _ (block_vars om)) with (@nil (pyomo_key * option Q));
    [done|].
  induction H as [|bv l Hbv _ IH]; simpl; [done|].
  rewrite Hbv. simpl. exact IH.
Qed.

(** C8: a solved model that yields no variable record and no dual value
    gives the empty result store, and no exception. *)
Theorem empty_input_empty_store
    (es : EnergySystem) (om : OperationalModel) (keys_as_strings : bool) :
  Forall (λ bv, bv_index bv = []) (block_vars om) →
  dual om = None ∨ Bus_balance om = [] →
  results_to_dict es om keys_as_strings = Ok [].
Proof.
  intros Hvars Hdual.
  unfold results_to_dict, results_to_df.
  rewrite (var_dict_no_records om Hvars). simpl.
  unfold add_duals.
  destruct Hdual as [-> | Hbal].
  - simpl. by destruct keys_as_strings.
  - rewrite Hbal. destruct (dual om); simpl; by destruct keys_as_strings.
Qed.

Lemma empty_input_empty_store_witness :
  results_to_dict es3 om_empty true = Ok [].
Proof.
  apply (empty_input_empty_store es3 om_empty true).
  - simpl. constructor.
  - left. reflexivity.
Defined.

(** ** Sorting *)

Section SortFacts.
Context {A : Type} (leb : A → A → bool).

Lemma insert_sorted_perm (x : A) (l : list A) :
  insert_sorted leb x l ≡ₚ x :: l.
Proof.
  induction l as [|y l IH]; simpl; [done|].
  destruct (leb x y); [done|].
  rewrite IH. apply Permutation_swap.
Qed.

Lemma sort_by_perm (l : list A) : sort_by leb l ≡ₚ l.
Proof.
  induction l as [|x l IH]; simpl; [done|].
  rewrite insert_sorted_perm. by rewrite IH.
Qed.

Lemma sort_by_length (l : list A) : length (sort_by leb l) = length l.
Proof. apply Permutation_length, sort_by_perm. Qed.

Lemma elem_of_sort_by (x : A) (l : list A) : x ∈ sort_by leb l ↔ x ∈ l.
Proof. by rewrite sort_by_perm. Qed.

Lemma NoDup_sort_by (l : list A) : NoDup l → NoDup (sort_by leb l).
Proof. by rewrite sort_by_perm. Qed.

(** With a total and transitive order the result is sorted. *)
Hypothesis leb_total : ∀ x y, leb x y = true ∨ leb y x = true.
Hypothesis leb_trans :
  ∀ x y z, leb x y = true → leb y z = true → leb x z = true.

Lemma insert_sorted_sorted (x : A) (l : list A) :
  StronglySorted (λ a b, leb a b = true) l →
  StronglySorted (λ a b, leb a b = true) (insert_sorted leb x l).
Proof.
  induction 1 as [|y l Hl IH Hy]; simpl.
  - repeat constructor.
  - destruct (leb x y) eqn:Hxy.
    + constructor; [by constructor|].
      constructor; [done|].
      eapply Forall_impl; [exact Hy|]. intros z Hz. simpl in *. eauto.
    + constructor; [done|].
      rewrite insert_sorted_perm. constructor; [|done].
      destruct (leb_total x y); congruence.
Qed.

Lemma sort_by_sorted (l : list A) :
  StronglySorted (λ a b, leb a b = true) (sort_by leb l).
Proof.
  induction l as [|x l IH]; simpl; [constructor|].
  by apply insert_sorted_sorted.
Qed.
End SortFacts.

(** ** Pivot tables and the scalar/sequence partition *)

Lemma filter_seq_first (P : nat → bool) (a n i : nat) (r : list nat) :
  List.filter P (seq a n) = i :: r →
  (a ≤ i < a + n)%nat ∧ P i = true ∧
  ∀ j, (a ≤ j < i)%nat → P j = false.
Proof.
  revert a; induction n as [|n IH]; intros a; simpl; [discriminate|].
  destruct (P a) eqn:Ha.
  - intros [= <- _]. repeat split; [lia | lia | done | lia].
  - intros H. apply IH in H as (Hi & HP & Hj).
    repeat split; [lia | lia | done |].
    intros j Hji. destruct (decide (j = a)) as [->|]; [done|].
    apply Hj. lia.
Qed.

(** [dropna().iloc[0]] yields the first row without a missing cell. *)
Lemma iloc0_dropna_Ok {I : Type} (f : frame I) (s : series) :
  iloc0 (dropna f) = Ok s →
  ∃ i, (i < length (index f))%nat ∧
       row_complete (columns f) i = true ∧
       (∀ j, (j < i)%nat → row_complete (columns f) j = false) ∧
       s = map (λ c, (c.1, default None (c.2 !! i))) (columns f).
Proof.
  unfold iloc0, dropna; simpl.
  destruct (List.filter _ (seq 0 (length (index f)))) as [|i r] eqn:Hkeep;
    simpl; [discriminate|].
  apply filter_seq_first in Hkeep as (Hi & Hc & Hj).
  destruct (index f !! i) as [x|] eqn:Hx;
    [|apply lookup_ge_None in Hx; lia].
  simpl. intros [= <-]. exists i. repeat split; [lia | done | |].
  - intros j Hji. apply Hj. lia.
  - rewrite map_map. done.
Qed.

(** Without such a row the extraction of the scalars raises. *)
Lemma iloc0_dropna_Raise {I : Type} (f : frame I) :
  (∀ j, (j < length (index f))%nat → row_complete (columns f) j = false) →
  iloc0 (dropna f) = Raise IndexError.
Proof.
  intros H. unfold iloc0, dropna; simpl.
  destruct (List.filter _ (seq 0 (length (index f)))) as [|i r] eqn:Hkeep;
    simpl; [done|].
  apply filter_seq_first in Hkeep as (Hi & Hc & _).
  rewrite H in Hc by lia. discriminate.
Qed.

Lemma pivot_Ok (g : list df_row) (p : frame atom) :
  pivot g = Ok p →
  index p = sort_by atom_leb (remove_dups (map timestep g)) ∧
  columns p =
    map (λ c, (c, map (λ t, cell g t c) (index p)))
        (sort_by string_leb (remove_dups (map variable_name g))).
Proof.
  unfold pivot. destruct (decide _); [|discriminate].
  by intros [= <-].
Qed.

Lemma pivot_Raise (g : list df_row) (e : exn) :
  pivot g = Raise e → e = ValueError.
Proof.
  unfold pivot. destruct (decide _); [discriminate|]. by intros [= <-].
Qed.

Lemma pivot_columns_NoDup (g : list df_row) (p : frame atom) :
  pivot g = Ok p → NoDup (columns p).*1.
Proof.
  intros (_ & ->)%pivot_Ok.
  rewrite <- list_fmap_compose. simpl.
  rewrite list_fmap_id.
  apply NoDup_sort_by, NoDup_remove_dups.
Qed.

Lemma split_group_Ok (es : EnergySystem) (v : list df_row) (e : entry) :
  split_group es v = Ok e →
  ∃ p, pivot v = Ok p ∧
       length (index p) = length (timeindex es) ∧
       iloc0 (dropna {| index := timeindex es;
                        columns := List.filter any_null (columns p) |})
         = Ok (scalars e) ∧
       sequences e =
         {| index := timeindex es;
            columns := List.filter (λ c, negb (any_null c)) (columns p) |}.
Proof.
  unfold split_group. intros H.
  inv_bind H. exists a. split; [done|].
  inv_bind H. unfold set_index in Ha0.
  destruct (decide _) as [Hlen|]; [|discriminate].
  injection Ha0 as <-.
  inv_bind H. injection H as <-. simpl.
  unfold loc_columns in *; simpl in *. done.
Qed.

Lemma elem_of_filter_bool {A : Type} (P : A → bool) (x : A) (l : list A) :
  x ∈ List.filter P l ↔ x ∈ l ∧ P x = true.
Proof. rewrite !list_elem_of_In. apply filter_In. Qed.

Lemma NoDup_fst_functional {A B : Type} (l : list (A * B)) (k : A) (x y : B) :
  NoDup l.*1 → (k, x) ∈ l → (k, y) ∈ l → x = y.
Proof.
  induction l as [|[m z] l IH]; simpl; [by intros _ ?%elem_of_nil|].
  rewrite NoDup_cons. intros [Hm Hnd] Hx Hy.
  apply elem_of_cons in Hx as [Hx|Hx]; apply elem_of_cons in Hy as [Hy|Hy].
  - congruence.
  - exfalso. apply Hm, list_elem_of_fmap. exists (k, y).
    split; [simpl; congruence | done].
  - exfalso. apply Hm, list_elem_of_fmap. exists (k, x).
    split; [simpl; congruence | done].
  - by apply IH.
Qed.

(** A name stands in one partition only. *)
Lemma partition_names_disjoint (cols : list (string * list (option Q)))
    (c : string * list (option Q)) (P : string * list (option Q) → bool) :
  NoDup cols.*1 → c ∈ cols → P c = false → c.1 ∉ (List.filter P cols).*1.
Proof.
  intros Hnd Hc HP (c' & Heq & Hc')%list_elem_of_fmap.
  apply elem_of_filter_bool in Hc' as [Hc' HP'].
  assert (c = c') as ->; [|congruence].
  destruct c as [n x], c' as [n' x']; simpl in *; subst n'.
  f_equal. eauto using NoDup_fst_functional.
Qed.

(** C5, as the code has it: of the variable names of a relation key, those
    with a missing value at one time step or more are classified as scalars
    and not as sequence columns, and those without a missing value are
    sequence columns and not scalars. *)
Theorem classification_by_any_missing
    (es : EnergySystem) (v : list df_row) (e : entry) (p : frame atom)
    (c : string * list (option Q)) :
  split_group es v = Ok e →
  pivot v = Ok p →
  c ∈ columns p →
  if any_null c
  then c.1 ∈ (scalars e).*1 ∧ c.1 ∉ (columns (sequences e)).*1
  else c ∈ columns (sequences e) ∧ c.1 ∉ (scalars e).*1.
Proof.
  intros Hsplit Hp Hc.
  pose proof (pivot_columns_NoDup _ _ Hp) as Hnd.
  apply split_group_Ok in Hsplit as (p' & Hp' & _ & Hsc & Hseq).
  assert (p' = p) as -> by congruence.
  apply iloc0_dropna_Ok in Hsc as (i & _ & _ & _ & Hsc). simpl in Hsc.
  rewrite Hseq, Hsc; simpl.
  rewrite <- list_fmap_compose.
  change (fst ∘ _) with (@fst string (list (option Q))).
  destruct (any_null c) eqn:Hnull.
  - split.
    + apply list_elem_of_fmap. exists c. split; [done|].
      by apply elem_of_filter_bool.
    + apply partition_names_disjoint; [done..|]. by rewrite Hnull.
  - split.
    + apply elem_of_filter_bool. by rewrite Hnull.
    + by apply partition_names_disjoint.
Qed.

Lemma classification_by_any_missing_witness :
  "invest" ∈ (scalars
     {| scalars := [("invest", Some (500 # 1))];
        sequences :=
          {| index := [10; 11; 12];
             columns := [("flow", [Some (10 # 1); Some (20 # 1);
                                   Some (30 # 1)])] |} |}).*1.
Proof.
  refine (proj1 (classification_by_any_missing es3 (df_of es3 om_invest)
            _ {| index := [AInt 0; AInt 1; AInt 2];
                 columns := [("flow", [Some (10 # 1); Some (20 # 1);
                                       Some (30 # 1)]);
                             ("invest", [Some (500 # 1); None; None])] |}
            ("invest", [Some (500 # 1); None; None]) _ _ _)).
  - vm_compute. reflexivity.
  - vm_compute. reflexivity.
  - vm_compute. right. left.
Defined.

(** C5, as stated, fails: the investment variable of a flow has a value at
    time step 0, so it is not null for all time steps, yet it is classified
    as a scalar and is no sequence column. *)
Lemma not_classified_by_all_null :
  results_to_dict es3 om_invest false =
    Ok [([ANode pp_gas; ANode bel],
         {| scalars := [("invest", Some (500 # 1))];
            sequences :=
              {| index := [10; 11; 12];
                 columns := [("flow", [Some (10 # 1); Some (20 # 1);
                                       Some (30 # 1)])] |} |})] ∧
  ¬ classified_by_all_null es3 (df_of es3 om_invest).
Proof.
  split; [by vm_compute|].
  intros H.
  specialize (H _ {| index := [AInt 0; AInt 1; AInt 2];
                     columns := [("flow", [Some (10 # 1); Some (20 # 1);
                                           Some (30 # 1)]);
                                 ("invest", [Some (500 # 1); None; None])] |}
                ("invest", [Some (500 # 1); None; None])
                ltac:(by vm_compute) ltac:(by vm_compute)
                ltac:(by right; left)).
  simpl in H.
  apply list_elem_of_singleton in H. discriminate.
Qed.

Lemma pivot_column_length (g : list df_row) (p : frame atom)
    (c : string * list (option Q)) :
  pivot g = Ok p → c ∈ columns p →
  c.2 = map (λ t, cell g t c.1) (index p) ∧ length c.2 = length (index p).
Proof.
  intros (_ & Hcols)%pivot_Ok Hc. rewrite Hcols in Hc.
  apply list_elem_of_fmap in Hc as (n & -> & _). simpl.
  by rewrite length_map.
Qed.

Lemma row_complete_lookup (cols : list (string * list (option Q))) (i : nat)
    (c : string * list (option Q)) :
  row_complete cols i = true → c ∈ cols → isnull (default None (c.2 !! i)) = false.
Proof.
  unfold row_complete. rewrite forallb_forall. intros H Hc.
  apply list_elem_of_In in Hc. specialize (H _ Hc).
  by destruct (c.2 !! i) as [[q|]|].
Qed.

(** C2, as the code has it: the pivot table of a relation key has one row
    per time step of the time index.  The variable names with a missing
    time step form the scalars, and their values are read in the first row
    in which none of them is missing.  The variable names without a missing
    time step form the sequence columns, labelled by the time index, each
    with one value per time step. *)
Theorem split_group_scalars_and_sequences
    (es : EnergySystem) (v : list df_row) (e : entry) (p : frame atom) :
  split_group es v = Ok e →
  pivot v = Ok p →
  length (index p) = length (timeindex es) ∧
  (∃ i, (i < length (timeindex es))%nat ∧
        row_complete (List.filter any_null (columns p)) i = true ∧
        (∀ j, (j < i)%nat →
              row_complete (List.filter any_null (columns p)) j = false) ∧
        scalars e = map (λ c, (c.1, default None (c.2 !! i)))
                        (List.filter any_null (columns p))) ∧
  Forall (λ s, isnull s.2 = false) (scalars e) ∧
  index (sequences e) = timeindex es ∧
  columns (sequences e) = List.filter (λ c, negb (any_null c)) (columns p) ∧
  Forall (λ c, c.2 = map (λ t, cell v t c.1) (index p) ∧
               length c.2 = length (timeindex es) ∧
               Forall (λ x, isnull x = false) c.2)
         (columns (sequences e)).
Proof.
  intros Hsplit Hp.
  apply split_group_Ok in Hsplit as (p' & Hp' & Hlen & Hsc & Hseq).
  assert (p' = p) as -> by congruence.
  apply iloc0_dropna_Ok in Hsc as (i & Hi & Hrow & Hfirst & Hsc).
  simpl in *.
  split; [done|]. split; [by exists i|].
  split.
  { rewrite Hsc. apply Forall_fmap, Forall_forall. intros c Hc. simpl.
    by eapply row_complete_lookup. }
  rewrite Hseq; simpl. split; [done|]. split; [done|].
  apply Forall_forall. intros c [Hc Hnn]%elem_of_filter_bool.
  destruct (pivot_column_length _ _ _ Hp Hc) as [Hcells Hclen].
  split; [done|]. split; [congruence|].
  apply negb_true_iff in Hnn. unfold any_null in Hnn.
  apply Forall_forall. intros x Hx.
  destruct (isnull x) eqn:Hnull; [|done].
  assert (existsb isnull c.2 = true) as Hex; [|congruence].
  apply existsb_exists. exists x. by rewrite <- list_elem_of_In.
Qed.

Lemma split_group_scalars_and_sequences_witness :
  ∃ i, (i < length (timeindex es3))%nat ∧
       [("invest", Some (500 # 1))] =
         map (λ c : string * list (option Q), (c.1, default None (c.2 !! i)))
             [("invest", [Some (500 # 1); None; None])].
Proof.
  destruct (split_group_scalars_and_sequences es3 (df_of es3 om_invest)
              {| scalars := [("invest", Some (500 # 1))];
                 sequences :=
                   {| index := [10; 11; 12];
                      columns := [("flow", [Some (10 # 1); Some (20 # 1);
                                            Some (30 # 1)])] |} |}
              {| index := [AInt 0; AInt 1; AInt 2];
                 columns := [("flow", [Some (10 # 1); Some (20 # 1);
                                       Some (30 # 1)]);
                             ("invest", [Some (500 # 1); None; None])] |}
              ltac:(vm_compute; reflexivity) ltac:(vm_compute; reflexivity))
    as (_ & (i & Hi & _ & _ & Hsc) & _).
  exists i. split; [exact Hi | exact Hsc].
Defined.

(** C2, as stated, fails: with [a] recorded at time steps 0 and 2 and [b] at
    time steps 1 and 2, both are scalars and their values are read in the
    row of time step 2, the first one without a missing value; the first
    non-missing value of [a] is the one of time step 0. *)
Lemma scalar_not_first_non_missing :
  results_to_dict es3 om_sparse false =
    Ok [([ANode storage],
         {| scalars := [("a", Some (3 # 1)); ("b", Some (4 # 1))];
            sequences := {| index := [10; 11; 12]; columns := [] |} |})] ∧
  first_non_missing [Some (1 # 1); None; Some (3 # 1)] = Some (1 # 1) ∧
  ¬ scalar_is_first_non_missing es3 (df_of es3 om_sparse).
Proof.
  split; [by vm_compute|]. split; [done|].
  intros H.
  specialize (H _ {| index := [AInt 0; AInt 1; AInt 2];
                     columns := [("a", [Some (1 # 1); None; Some (3 # 1)]);
                                 ("b", [None; Some (2 # 1); Some (4 # 1)])] |}
                ("a", [Some (1 # 1); None; Some (3 # 1)])
                ltac:(by vm_compute) ltac:(by vm_compute)
                ltac:(by left) ltac:(done)).
  vm_compute in H. discriminate.
Qed.

(** ** Misaligned records *)

Lemma foldM_not_ok {A B : Type} (f : B → A → res B) (l : list A) (b : B) :
  (∃ x, x ∈ l ∧ ∀ b', is_ok (f b' x) = false) →
  is_ok (foldM f b l) = false.
Proof.
  revert b; induction l as [|y l IH]; intros b (x & Hx & Hf).
  - by apply elem_of_nil in Hx.
  - simpl. apply elem_of_cons in Hx as [->|Hx].
    + specialize (Hf b). by destruct (f b y).
    + destruct (f b y) as [b'|]; simpl; [|done]. apply IH. eauto.
Qed.


Lemma split_group_misaligned (es : EnergySystem) (v : list df_row) :
  length (remove_dups (map timestep v)) ≠ length (timeindex es) →
  split_group es v = Raise ValueError.
Proof.
  intros Hlen. unfold split_group.
  destruct (pivot v) as [p|e] eqn:Hp; simpl.
  - apply pivot_Ok in Hp as [Hidx _].
    unfold set_index. rewrite Hidx, sort_by_length.
    destruct (decide _) as [Heq|]; [|done]. by rewrite Heq in Hlen.
  - by apply pivot_Raise in Hp as ->.
Qed.

(** ** Dictionaries *)

Section DictFacts.
Context {K : Type} `{EqDecision K} {V : Type}.
Implicit Types (d : list (K * V)) (k : K) (v : V).

Lemma dict_get_set_eq k v d : dict_get k (dict_set k v d) = Some v.
Proof.
  induction d as [|[k' v'] d IH]; simpl.
  - by rewrite decide_True.
  - destruct (decide (k = k')) as [->|Hne]; simpl.
    + by rewrite decide_True.
    + by rewrite decide_False.
Qed.

Lemma dict_get_set_ne k k' v d :
  k ≠ k' → dict_get k' (dict_set k v d) = dict_get k' d.
Proof.
  intros Hne. induction d as [|[k0 v0] d IH]; simpl.
  - by rewrite decide_False.
  - destruct (decide (k = k0)) as [->|Hne0]; simpl.
    + by rewrite !decide_False.
    + by rewrite IH.
Qed.

Lemma dict_set_new k v d : k ∉ d.*1 → dict_set k v d = d ++ [(k, v)].
Proof.
  induction d as [|[k' v'] d IH]; simpl; [done|].
  rewrite not_elem_of_cons. intros [Hne Hk].
  rewrite decide_False by done. by rewrite IH.
Qed.

Lemma dict_set_keys k v d :
  ((dict_set k v d).*1 = d.*1) ∨
  ((k ∉ d.*1) ∧ (dict_set k v d).*1 = d.*1 ++ [k]).
Proof.
  induction d as [|[k' v'] d IH].
  - right. split; [apply not_elem_of_nil | done].
  - simpl dict_set. destruct (decide (k = k')) as [->|Hne].
    + by left.
    + rewrite !fmap_cons. simpl fst.
      destruct IH as [->|[Hk ->]]; [by left|].
      right. split; [|done]. rewrite not_elem_of_cons. done.
Qed.

Lemma dict_set_NoDup k v d : NoDup d.*1 → NoDup (dict_set k v d).*1.
Proof.
  intros Hnd. destruct (dict_set_keys k v d) as [->|[Hk ->]]; [done|].
  apply NoDup_app. split; [done|]. split; [|apply NoDup_singleton].
  intros x Hx ->%list_elem_of_singleton. done.
Qed.

Lemma dict_of_items_NoDup (l : list (K * V)) :
  NoDup l.*1 → dict_of_items l = l.
Proof.
  unfold dict_of_items.
  cut (∀ acc, NoDup (acc ++ l).*1 →
         foldl (λ d kv, dict_set kv.1 kv.2 d) acc l = acc ++ l).
  { intros H. apply (H []). }
  induction l as [|[k v] l IH]; intros acc Hnd; simpl.
  - by rewrite app_nil_r.
  - rewrite dict_set_new.
    + rewrite IH; rewrite <- app_assoc; done.
    + rewrite fmap_app in Hnd. apply NoDup_app in Hnd as (_ & Hdisj & _).
      intros Hk. apply (Hdisj _ Hk). simpl. left.
Qed.
End DictFacts.

Lemma filter_dict_set_other (c : string) (v : list (option Q))
    (cols : list (string * list (option Q))) :
  List.filter (λ x, negb (bool_decide (x.1 = c))) (dict_set c v cols) =
  List.filter (λ x, negb (bool_decide (x.1 = c))) cols.
Proof.
  induction cols as [|[c' v'] cols IH]; simpl.
  - by rewrite bool_decide_eq_true_2.
  - destruct (decide (c = c')) as [->|Hne]; simpl.
    + by rewrite bool_decide_eq_true_2.
    + by rewrite IH.
Qed.

(** ** Dual values *)

Lemma duals_over_timeindex_length (es : EnergySystem) (duals : list Q) :
  length duals = length (timeindex es) ∨ length duals = 1%nat →
  length (duals_over_timeindex es duals) = length (timeindex es).
Proof.
  destruct duals as [|q [|q' duals]]; simpl;
    rewrite ?length_replicate, ?length_map; intros [?|?]; done.
Qed.

Lemma duals_over_timeindex_aligned (es : EnergySystem) (duals : list Q) :
  length duals = length (timeindex es) →
  duals_over_timeindex es duals = map Some duals.
Proof.
  destruct duals as [|q [|q' duals]]; simpl; [done| |done].
  by intros <-.
Qed.

Lemma duals_over_timeindex_single (es : EnergySystem) (q : Q) :
  duals_over_timeindex es [q] = replicate (length (timeindex es)) (Some q).
Proof. done. Qed.

(** The frame of the duals is built exactly when there are as many dual
    values as time steps, or a single one. *)
Lemma DataFrame_duals_timeindex (es : EnergySystem) (duals : list Q) :
  DataFrame_duals duals (timeindex es) =
    if decide (length duals = length (timeindex es) ∨ length duals = 1%nat)
    then Ok {| index := timeindex es;
               columns := [("duals", duals_over_timeindex es duals)] |}
    else Raise ValueError.
Proof.
  destruct duals as [|q [|q' duals]]; simpl.
  - destruct (decide (0%nat = _)) as [H|H].
    + rewrite decide_True; [done|by left].
    + rewrite decide_False; [done|]. intros [?|?]; done.
  - rewrite decide_True; [done|by right].
  - destruct (decide (S (S _) = _)) as [H|H].
    + rewrite decide_True; [done|by left].
    + rewrite decide_False; [done|]. intros [?|?]; done.
Qed.

Lemma add_bus_duals_Ok (es : EnergySystem) (d : list (Node * Z * Q))
    (results results' : store) (grp : Node * list (Node * Z)) :
  add_bus_duals es d results grp = Ok results' →
  ∃ duals,
    mapM (λ p, dual_value d grp.1 p.2) grp.2 = Ok duals ∧
    (length duals = length (timeindex es) ∨ length duals = 1%nat) ∧
    (∀ e, dict_get [ANode grp.1] results = Some e →
          length duals = length (index (sequences e))) ∧
    results' =
      dict_set [ANode grp.1]
               (with_duals es (dict_get [ANode grp.1] results) duals) results.
Proof.
  unfold add_bus_duals. intros H. inv_bind H. exists a. split; [done|].
  rewrite DataFrame_duals_timeindex in H.
  destruct (decide _) as [Hlen|]; [|discriminate]. rewrite bind_Ok_l in H.
  split; [done|].
  destruct (dict_get _ results) as [e|].
  - inv_bind H. unfold set_column in Ha0.
    destruct (decide _) as [Hrows|]; [|discriminate]. injection Ha0 as <-.
    injection H as <-. split; [|done].
    intros ? [= <-]. by rewrite length_map in Hrows.
  - injection H as <-. split; [|done]. by intros ? [=].
Qed.

Lemma only_duals_added_refl (buses : Node → Prop) (r : store) :
  only_duals_added buses r r.
Proof. split; [intros k e He; exists e; auto | intros k H1 H2; done]. Qed.

Lemma only_duals_added_trans (buses : Node → Prop) (r1 r2 r3 : store) :
  only_duals_added buses r1 r2 → only_duals_added buses r2 r3 →
  only_duals_added buses r1 r3.
Proof.
  intros [H12 N12] [H23 N23]. split.
  - intros k e He.
    destruct (H12 k e He) as (e2 & He2 & Hs2 & Hi2 & Ho2 & Hf2).
    destruct (H23 k e2 He2) as (e3 & He3 & Hs3 & Hi3 & Ho3 & Hf3).
    exists e3. repeat split; try congruence.
    intros Hk. rewrite Hf3, Hf2; done.
  - intros k Hk1 Hk3.
    destruct (dict_get k r2) as [e2|] eqn:Hk2; [|by apply N23].
    apply N12; [done|congruence].
Qed.

Lemma add_bus_duals_only_duals (buses : Node → Prop) (es : EnergySystem)
    (d : list (Node * Z * Q)) (r r' : store) (grp : Node * list (Node * Z)) :
  buses grp.1 →
  add_bus_duals es d r grp = Ok r' → only_duals_added buses r r'.
Proof.
  intros Hb (duals & _ & _ & _ & Hr')%add_bus_duals_Ok.
  destruct (dict_get [ANode grp.1] r) as [e0|] eqn:Hget; subst r'.
  - split.
    + intros k e He. destruct (decide ([ANode grp.1] = k)) as [<-|Hne].
      * rewrite dict_get_set_eq. eexists. split; [done|]. simpl.
        assert (e = e0) as -> by congruence.
        repeat split; try done.
        -- unfold other_columns; simpl. apply filter_dict_set_other.
        -- intros Hk. by destruct (Hk _ Hb).
      * rewrite dict_get_set_ne by done. exists e. auto.
    + intros k Hk1 Hk2. destruct (decide ([ANode grp.1] = k)) as [<-|Hne].
      * congruence.
      * by rewrite dict_get_set_ne in Hk2.
  - split.
    + intros k e He. destruct (decide ([ANode grp.1] = k)) as [<-|Hne].
      * congruence.
      * rewrite dict_get_set_ne by done. exists e. auto.
    + intros k Hk1 Hk2. destruct (decide ([ANode grp.1] = k)) as [<-|Hne].
      * eauto.
      * by rewrite dict_get_set_ne in Hk2.
Qed.

Lemma foldM_only_duals (buses : Node → Prop) (es : EnergySystem)
    (d : list (Node * Z * Q)) (gs : list (Node * list (Node * Z)))
    (r r' : store) :
  Forall (λ grp, buses grp.1) gs →
  foldM (add_bus_duals es d) r gs = Ok r' → only_duals_added buses r r'.
Proof.
  intros Hgs. revert r. induction Hgs as [|grp gs Hgrp _ IH]; intros r H.
  - injection H as <-. apply only_duals_added_refl.
  - simpl in H. inv_bind H.
    eapply only_duals_added_trans; [|by apply IH].
    by eapply add_bus_duals_only_duals.
Qed.

Lemma groupby_bus_groups (l : list (Node * Z)) :
  Forall (λ grp, grp.2 ≠ [] ∧ Forall (λ p, p.1 = grp.1 ∧ p ∈ l) grp.2)
         (groupby_bus l).
Proof.
  induction l as [|p l IH]; simpl; [constructor|].
  assert (Forall (λ grp : Node * list (Node * Z),
            grp.2 ≠ [] ∧ Forall (λ q, q.1 = grp.1 ∧ q ∈ p :: l) grp.2)
          (groupby_bus l)) as IH'.
  { eapply Forall_impl; [exact IH|]. intros grp [Hne Hall]. split; [done|].
    eapply Forall_impl; [exact Hall|]. intros q [? ?]. split; [done|by right]. }
  destruct (groupby_bus l) as [|[b g] gs]; simpl.
  - repeat constructor. done.
  - apply Forall_cons in IH' as [[Hne Hg] Hgs]. destruct (decide (p.1 = b)).
    + constructor; [|done]. simpl in *. split; [done|].
      constructor; [|done]. split; [done|left].
    + constructor; [|by constructor]. simpl. split; [done|].
      repeat constructor.
Qed.

Lemma groupby_bus_balanced (l : list (Node * Z)) :
  Forall (λ grp, ∃ t, (grp.1, t) ∈ l) (groupby_bus l).
Proof.
  eapply Forall_impl; [apply groupby_bus_groups|].
  intros [b g] [Hne Hall]; simpl in *.
  destruct g as [|[b' t] g]; [done|].
  apply Forall_cons in Hall as [[Hb Hin] _]. simpl in Hb. subst b'. eauto.
Qed.

(** C10: attaching the dual values only adds entries keyed by the 1-tuple
    of a bus with a balance constraint, or sets the ['duals'] column of such
    an entry.  Every entry that was in the store is still there with the
    same scalars, the same row labels and the same sequence columns other
    than ['duals'], and it is unchanged altogether when its key is not the
    1-tuple of such a bus. *)
Theorem add_duals_frame
    (es : EnergySystem) (om : OperationalModel) (results results' : store) :
  add_duals es om results = Ok results' →
  (∀ k e, dict_get k results = Some e →
     ∃ e', dict_get k results' = Some e' ∧
           scalars e' = scalars e ∧
           index (sequences e') = index (sequences e) ∧
           other_columns (sequences e') = other_columns (sequences e) ∧
           ((∀ b t, (b, t) ∈ Bus_balance om → k ≠ [ANode b]) → e' = e)) ∧
  (∀ k, dict_get k results = None → dict_get k results' ≠ None →
     ∃ b t, (b, t) ∈ Bus_balance om ∧ k = [ANode b]).
Proof.
  intros H.
  assert (only_duals_added (λ b, ∃ t, (b, t) ∈ Bus_balance om)
                           results results') as [Hold Hnew].
  { unfold add_duals in H. destruct (dual om) as [d|].
    - eapply foldM_only_duals; [|exact H].
      eapply Forall_impl; [apply groupby_bus_balanced|].
      intros grp [t Ht]. exists t. by apply elem_of_sort_by in Ht.
    - injection H as <-. apply only_duals_added_refl. }
  split.
  - intros k e He. destruct (Hold k e He) as (e' & ? & ? & ? & ? & Hsame).
    exists e'. repeat split; try done.
    intros Hk. apply Hsame. intros b [t Ht]. eauto.
  - intros k Hk1 Hk2. destruct (Hnew k Hk1 Hk2) as (b & [t Ht] & ->). eauto.
Qed.

Lemma add_duals_frame_witness :
  ∃ e', dict_get [ANode bel] [([ANode bel], entry_bel_duals)] = Some e' ∧
        scalars e' = scalars entry_bel ∧
        index (sequences e') = index (sequences entry_bel) ∧
        other_columns (sequences e') = other_columns (sequences entry_bel).
Proof.
  destruct (proj1 (add_duals_frame es3 om_duals
                     [([ANode bel], entry_bel)]
                     [([ANode bel], entry_bel_duals)]
                     ltac:(vm_compute; reflexivity))
              [ANode bel] entry_bel eq_refl)
    as (e' & H1 & H2 & H3 & H4 & _).
  exists e'. auto.
Defined.

(** ** Keys as strings *)

Lemma foldM_invariant {A B : Type} (P : B → Prop) (f : B → A → res B)
    (l : list A) (b b' : B) :
  (∀ b x b', P b → f b x = Ok b' → P b') →
  P b → foldM f b l = Ok b' → P b'.
Proof.
  intros Hstep. revert b. induction l as [|x l IH]; intros b Hb H; simpl in H.
  - by injection H as <-.
  - inv_bind H. eauto.
Qed.

Lemma split_groups_NoDup (es : EnergySystem)
    (df_dict : list (list atom * list df_row)) (r : store) :
  split_groups es df_dict = Ok r → NoDup r.*1.
Proof.
  unfold split_groups.
  apply (foldM_invariant (λ r : store, NoDup r.*1)); [|constructor].
  intros b x b' Hb H. inv_bind H. injection H as <-.
  by apply dict_set_NoDup.
Qed.

Lemma add_duals_NoDup (es : EnergySystem) (om : OperationalModel)
    (r r' : store) :
  NoDup r.*1 → add_duals es om r = Ok r' → NoDup r'.*1.
Proof.
  intros Hr. unfold add_duals. destruct (dual om) as [d|].
  - apply (foldM_invariant (λ r : store, NoDup r.*1)); [|done].
    intros b x b' Hb (duals & _ & _ & _ & ->)%add_bus_duals_Ok.
    by apply dict_set_NoDup.
  - by intros [= <-].
Qed.

Lemma results_to_dict_NoDup (es : EnergySystem) (om : OperationalModel)
    (r : store) :
  results_to_dict es om false = Ok r → NoDup r.*1.
Proof.
  unfold results_to_dict. intros H.
  inv_bind H. inv_bind H. inv_bind H. injection H as <-.
  eapply add_duals_NoDup; [|done]. by eapply split_groups_NoDup.
Qed.

(** On tuples of nodes [str] loses nothing: the label is the identity. *)
Lemma str_key_inj (k1 k2 : list atom) :
  forallb is_node k1 = true → forallb is_node k2 = true →
  str_key k1 = str_key k2 → k1 = k2.
Proof.
  revert k2; induction k1 as [|a k1 IH]; intros [|b k2]; simpl; try done.
  intros [Ha H1]%andb_true_iff [Hb H2]%andb_true_iff [= Hab Hk].
  f_equal; [|by apply IH].
  destruct a as [| | |[la]], b as [| | |[lb]]; simpl in *; try done.
  by subst.
Qed.

Lemma str_keys_NoDup (r : store) :
  Forall (λ kv, forallb is_node kv.1 = true) r →
  NoDup r.*1 → NoDup (map (λ kv, (str_key kv.1, kv.2)) r).*1.
Proof.
  induction 1 as [|[k e] r Hk Hr IH]; simpl; [done|].
  rewrite !NoDup_cons. intros [Hnotin Hnd]. split; [|auto].
  intros (kv' & Heq & Hin)%list_elem_of_fmap.
  apply list_elem_of_fmap in Hin as ([k2 e2] & -> & Hin). simpl in *.
  apply Hnotin, list_elem_of_fmap. exists (k2, e2). split; [|done]. simpl.
  apply str_key_inj; [done| |done].
  rewrite Forall_forall in Hr. by apply (Hr (k2, e2)).
Qed.

(** C7: with [keys_as_strings=True] the call succeeds whenever it succeeds
    without, so the conversion adds no failure; when the relation keys are
    tuples of entities, the result is the same list of entries, each under
    the tuple of its key's labels; and the 1-tuple of a bus labelled
    "electricity" becomes [("electricity",)]. *)
Theorem keys_as_strings_rekeys
    (es : EnergySystem) (om : OperationalModel) (r : store) :
  results_to_dict es om false = Ok r →
  Forall (λ kv, forallb is_node kv.1 = true) r →
  results_to_dict es om true = Ok (keys_to_strings r) ∧
  keys_to_strings r = map (λ kv, (map (λ a, AStr (py_str a)) kv.1, kv.2)) r ∧
  (keys_to_strings r).*2 = r.*2 ∧
  (∀ k, forallb is_node k = true →
        dict_get (str_key k) (keys_to_strings r) = dict_get k r) ∧
  str_key [ANode {| label := "electricity" |}] = [AStr "electricity"].
Proof.
  intros Hr Hnodes.
  pose proof (results_to_dict_NoDup _ _ _ Hr) as Hnd.
  assert (keys_to_strings r = map (λ kv, (str_key kv.1, kv.2)) r) as Hks.
  { unfold keys_to_strings. apply dict_of_items_NoDup.
    by apply str_keys_NoDup. }
  split; [|split; [|split; [|split]]].
  - unfold results_to_dict in *.
    destruct (results_to_df es om) as [df|]; simpl in *; [|done].
    destruct (split_groups es _) as [r0|]; simpl in *; [|done].
    destruct (add_duals es om r0) as [r1|]; simpl in *; [|done].
    by injection Hr as ->.
  - exact Hks.
  - rewrite Hks, <- list_fmap_compose. done.
  - intros k Hk. rewrite Hks. clear Hks Hr Hnd.
    induction Hnodes as [|[k' e'] r Hk' _ IH]; simpl; [done|].
    destruct (decide (k = k')) as [->|Hne].
    + by rewrite decide_True.
    + rewrite decide_False; [done|].
      intros Heq. apply Hne. by apply str_key_inj.
  - reflexivity.
Qed.

Lemma keys_as_strings_rekeys_witness :
  results_to_dict es3 om_duals true =
    Ok (keys_to_strings [([ANode bel], entry_bel_duals)]).
Proof.
  refine (proj1 (keys_as_strings_rekeys es3 om_duals
                   [([ANode bel], entry_bel_duals)] _ _)).
  - vm_compute. reflexivity.
  - repeat constructor.
Defined.

(** ** The order of the balance keys *)

Lemma string_compare_OT (s t : string) :
  String.compare s t = OrdersEx.String_as_OT.compare s t.
Proof.
  revert t; induction s as [|a s IH]; intros [|b t]; simpl; [done..|].
  by rewrite IH.
Qed.

Lemma string_compare_refl (s : string) : String.compare s s = Eq.
Proof.
  rewrite string_compare_OT.
  destruct (OrdersEx.String_as_OT.compare_spec s s) as [_|H|H]; [done| |];
    by apply OrdersEx.String_as_OT.lt_strorder in H.
Qed.

Lemma string_compare_Lt_trans (a b c : string) :
  String.compare a b = Lt → String.compare b c = Lt → String.compare a c = Lt.
Proof.
  rewrite !string_compare_OT.
  apply (@StrictOrder_Transitive _ _ OrdersEx.String_as_OT.lt_strorder).
Qed.

Lemma string_compare_Gt (a b : string) :
  String.compare a b = Lt → String.compare b a = Gt.
Proof. intros H. by rewrite String.compare_antisym, H. Qed.

Lemma balance_leb_total (p q : Node * Z) :
  balance_leb p q = true ∨ balance_leb q p = true.
Proof.
  unfold balance_leb.
  rewrite (String.compare_antisym (label q.1) (label p.1)).
  destruct (String.compare (label p.1) (label q.1)); simpl; auto.
  destruct (Z.leb_spec p.2 q.2); [auto|]. right. apply Z.leb_le. lia.
Qed.

Lemma balance_leb_trans (p q r : Node * Z) :
  balance_leb p q = true → balance_leb q r = true → balance_leb p r = true.
Proof.
  unfold balance_leb.
  destruct (String.compare (label p.1) (label q.1)) eqn:Hpq; [| |done];
    destruct (String.compare (label q.1) (label r.1)) eqn:Hqr; try done.
  - apply String.compare_eq_iff in Hpq, Hqr. rewrite Hpq, Hqr.
    rewrite string_compare_refl, !Z.leb_le. lia.
  - apply String.compare_eq_iff in Hpq. rewrite Hpq, Hqr. done.
  - apply String.compare_eq_iff in Hqr. rewrite <- Hqr, Hpq. done.
  - by rewrite (string_compare_Lt_trans _ _ _ Hpq Hqr).
Qed.

Lemma balance_leb_same_bus (p q : Node * Z) :
  p.1 = q.1 → balance_leb p q = Z.leb p.2 q.2.
Proof. unfold balance_leb. intros ->. by rewrite string_compare_refl. Qed.

Lemma balance_leb_other_bus (p q : Node * Z) :
  balance_leb p q = true → p.1 ≠ q.1 →
  String.compare (label p.1) (label q.1) = Lt.
Proof.
  unfold balance_leb. intros H Hne.
  destruct (String.compare (label p.1) (label q.1)) eqn:Hc; [|done..].
  apply String.compare_eq_iff in Hc. exfalso. apply Hne.
  destruct p as [[lp] ?], q as [[lq] ?]; simpl in *. by subst.
Qed.

Lemma sorted_Bus_balance (l : list (Node * Z)) :
  balance_sorted (sort_by balance_leb l).
Proof.
  apply sort_by_sorted; [apply balance_leb_total | apply balance_leb_trans].
Qed.

(** In a sorted list, once the bus has changed it does not come back. *)
Lemma sorted_bus_gone (p q0 : Node * Z) (l : list (Node * Z)) :
  balance_sorted (p :: q0 :: l) → p.1 ≠ q0.1 →
  ∀ q, q ∈ q0 :: l → q.1 ≠ p.1.
Proof.
  intros Hs Hne q Hq Heq.
  apply StronglySorted_inv in Hs as [Hs Hp].
  apply StronglySorted_inv in Hs as [_ Hq0].
  apply Forall_cons in Hp as [Hpq0 _].
  pose proof (balance_leb_other_bus _ _ Hpq0 Hne) as Hlt.
  apply elem_of_cons in Hq as [->|Hq]; [by apply Hne|].
  rewrite Forall_forall in Hq0. specialize (Hq0 _ Hq).
  unfold balance_leb in Hq0. rewrite Heq in Hq0.
  by rewrite (string_compare_Gt _ _ Hlt) in Hq0.
Qed.

(** ** Grouping the balance keys *)

Lemma groupby_bus_head (p : Node * Z) (l : list (Node * Z)) :
  ∃ g gs, groupby_bus (p :: l) = (p.1, g) :: gs.
Proof.
  simpl. destruct (groupby_bus l) as [|[b g] gs]; [eauto|].
  destruct (decide (p.1 = b)) as [<-|]; eauto.
Qed.

Lemma groupby_bus_nil (l : list (Node * Z)) : groupby_bus l = [] → l = [].
Proof.
  destruct l as [|p l]; [done|].
  destruct (groupby_bus_head p l) as (g & gs & ->). done.
Qed.

Lemma filter_none {A : Type} (P : A → Prop) `{∀ x, Decision (P x)}
    (l : list A) :
  (∀ x, x ∈ l → ¬ P x) → filter P l = [].
Proof.
  induction l as [|x l IH]; intros Hl; [done|].
  rewrite filter_cons_False by (apply Hl; left).
  apply IH. intros y Hy. apply Hl. by right.
Qed.

(** Of a sorted list every bus gets one group, and the group holds all the
    keys of the bus, in their order. *)
Lemma groupby_bus_sorted (l : list (Node * Z)) :
  balance_sorted l →
  NoDup (groupby_bus l).*1 ∧
  ∀ b g, (b, g) ∈ groupby_bus l → g = filter (λ p, p.1 = b) l.
Proof.
  induction l as [|p l IH]; intros Hs.
  - split; [constructor | by intros b g ?%elem_of_nil].
  - pose proof Hs as Hs'. apply StronglySorted_inv in Hs' as [Hl _].
    destruct (IH Hl) as [Hnd Hgrp]. simpl.
    destruct (groupby_bus l) as [|[b0 g0] gs] eqn:Hgb.
    + apply groupby_bus_nil in Hgb as ->. split; [apply NoDup_singleton|].
      intros b g [= -> ->]%list_elem_of_singleton.
      by rewrite filter_cons_True.
    + destruct (decide (p.1 = b0)) as [Hpb|Hpb].
      * split; [done|]. intros b g [[= -> ->]|Hin]%elem_of_cons.
        -- rewrite filter_cons_True by done. f_equal. apply Hgrp. left.
        -- rewrite filter_cons_False; [apply Hgrp; by right|].
           intros Heq. simpl in Hnd. apply NoDup_cons in Hnd as [Hb0 _].
           apply Hb0, list_elem_of_fmap. exists (b, g). split; [|done].
           simpl. congruence.
      * destruct l as [|q0 l']; [done|].
        destruct (groupby_bus_head q0 l') as (g' & gs' & Hhead).
        rewrite Hhead in Hgb. injection Hgb as <- <- <-.
        pose proof (sorted_bus_gone _ _ _ Hs Hpb) as Hgone.
        assert (filter (λ q : Node * Z, q.1 = p.1) (q0 :: l') = []) as Hnone.
        { apply filter_none. intros q Hq. by apply Hgone. }
        split.
        -- rewrite fmap_cons. apply NoDup_cons. split; [|done].
           intros (grp & Heq & Hin)%list_elem_of_fmap.
           destruct grp as [b g]. simpl in Heq. subst b.
           pose proof (Hgrp _ _ Hin) as Hg. rewrite Hnone in Hg. subst g.
           pose proof (groupby_bus_groups (q0 :: l')) as Hne.
           rewrite Hhead, Forall_forall in Hne.
           by destruct (Hne _ Hin) as [? _].
        -- intros b g [[= -> ->]|Hin]%elem_of_cons.
           ++ rewrite filter_cons_True by done. by rewrite Hnone.
           ++ rewrite filter_cons_False; [by apply Hgrp|].
              intros Heq. pose proof (Hgrp _ _ Hin) as Hg.
              rewrite <- Heq, Hnone in Hg. subst g.
              pose proof (groupby_bus_groups (q0 :: l')) as Hne.
              rewrite Hhead, Forall_forall in Hne.
              by destruct (Hne _ Hin) as [? _].
Qed.

Lemma groupby_bus_covers (l : list (Node * Z)) (p : Node * Z) :
  p ∈ l → ∃ g, (p.1, g) ∈ groupby_bus l.
Proof.
  induction l as [|q l IH]; [by intros ?%elem_of_nil|].
  intros [->|Hp]%elem_of_cons.
  - destruct (groupby_bus_head q l) as (g & gs & ->). exists g. left.
  - destruct (IH Hp) as [g Hg]. simpl.
    destruct (groupby_bus l) as [|[b0 g0] gs]; [by apply elem_of_nil in Hg|].
    destruct (decide (q.1 = b0)) as [Hq|Hq].
    + apply elem_of_cons in Hg as [[= -> ->]|Hg].
      * eexists. left.
      * exists g. by right.
    + exists g. by right.
Qed.

Lemma sorted_bus_timesteps (b : Node) (l : list (Node * Z)) :
  balance_sorted l →
  StronglySorted Z.le (map snd (filter (λ p, p.1 = b) l)).
Proof.
  induction 1 as [|p l Hl IH Hp]; [constructor|].
  destruct (decide (p.1 = b)) as [Hb|Hb].
  - rewrite filter_cons_True by done. simpl. constructor; [done|].
    apply Forall_fmap, Forall_forall. intros q [Hq Hin]%list_elem_of_filter.
    rewrite Forall_forall in Hp. specialize (Hp _ Hin). simpl.
    rewrite balance_leb_same_bus in Hp by congruence. by apply Z.leb_le.
  - by rewrite filter_cons_False.
Qed.

(** ** Attaching the duals *)

Lemma add_bus_duals_other (es : EnergySystem) (d : list (Node * Z * Q))
    (r r' : store) (grp : Node * list (Node * Z)) (b : Node) :
  grp.1 ≠ b → add_bus_duals es d r grp = Ok r' →
  dict_get [ANode b] r' = dict_get [ANode b] r.
Proof.
  intros Hne (duals & _ & _ & _ & ->)%add_bus_duals_Ok.
  apply dict_get_set_ne. congruence.
Qed.

Lemma foldM_add_bus_duals_other (es : EnergySystem) (d : list (Node * Z * Q))
    (gs : list (Node * list (Node * Z))) (r r' : store) (b : Node) :
  b ∉ gs.*1 → foldM (add_bus_duals es d) r gs = Ok r' →
  dict_get [ANode b] r' = dict_get [ANode b] r.
Proof.
  revert r; induction gs as [|grp gs IH]; intros r Hb H; simpl in H.
  - by injection H as <-.
  - inv_bind H. rewrite fmap_cons, not_elem_of_cons in Hb.
    destruct Hb as [Hne Hb].
    rewrite (IH _ Hb H). by eapply add_bus_duals_other.
Qed.

Lemma foldM_add_bus_duals_at (es : EnergySystem) (d : list (Node * Z * Q))
    (gs : list (Node * list (Node * Z))) (r r' : store)
    (b : Node) (g : list (Node * Z)) :
  NoDup gs.*1 → (b, g) ∈ gs →
  foldM (add_bus_duals es d) r gs = Ok r' →
  ∃ duals,
    mapM (λ p, dual_value d b p.2) g = Ok duals ∧
    (length duals = length (timeindex es) ∨ length duals = 1%nat) ∧
    (∀ e, dict_get [ANode b] r = Some e →
          length duals = length (index (sequences e))) ∧
    dict_get [ANode b] r' =
      Some (with_duals es (dict_get [ANode b] r) duals).
Proof.
  revert r; induction gs as [|grp gs IH]; intros r Hnd Hin H.
  - by apply elem_of_nil in Hin.
  - simpl in H. inv_bind H.
    rewrite fmap_cons in Hnd. apply NoDup_cons in Hnd as [Hgrp Hnd].
    apply elem_of_cons in Hin as [<-|Hin].
    + simpl in Hgrp. rewrite (foldM_add_bus_duals_other _ _ _ _ _ _ Hgrp H).
      apply add_bus_duals_Ok in Ha as (duals & Hm & Hlen & Hrows & ->).
      exists duals. cbn [fst snd] in *. repeat split; [done..|].
      apply dict_get_set_eq.
    + assert (dict_get [ANode b] a = dict_get [ANode b] r) as Hsame.
      { eapply add_bus_duals_other; [|done].
        intros Heq. apply Hgrp, list_elem_of_fmap. by exists (b, g). }
      destruct (IH _ Hnd Hin H) as (duals & Hm & Hlen & Hrows & Hget).
      exists duals. rewrite <- Hsame. done.
Qed.

Lemma mapM_total {A B : Type} (f : A → res B) (l : list A) :
  (∀ x, x ∈ l → ∃ y, f x = Ok y) → ∃ k, mapM f l = Ok k.
Proof.
  induction l as [|x l IH]; intros H; simpl; [by eexists|].
  destruct (H x) as [y Hy]; [by left|]. rewrite Hy. simpl.
  destruct IH as [k Hk]; [intros z Hz; apply H; by right|].
  rewrite Hk. simpl. by eexists.
Qed.

Lemma foldM_add_bus_duals_succeeds (es : EnergySystem)
    (d : list (Node * Z * Q)) (gs : list (Node * list (Node * Z)))
    (r : store) :
  NoDup gs.*1 →
  (∀ grp, grp ∈ gs →
     ∃ duals, mapM (λ p, dual_value d grp.1 p.2) grp.2 = Ok duals ∧
              (length duals = length (timeindex es) ∨
               length duals = 1%nat)) →
  (∀ grp e, grp ∈ gs → dict_get [ANode grp.1] r = Some e →
     length (index (sequences e)) = length grp.2) →
  ∃ r', foldM (add_bus_duals es d) r gs = Ok r'.
Proof.
  revert r; induction gs as [|grp gs IH]; intros r Hnd Hduals Hrows.
  - by eexists.
  - rewrite fmap_cons in Hnd. apply NoDup_cons in Hnd as [Hgrp Hnd].
    destruct (Hduals grp) as (duals & Hm & Hlen); [by left|].
    assert (∃ r1, add_bus_duals es d r grp = Ok r1) as [r1 Hr1].
    { unfold add_bus_duals. rewrite Hm, bind_Ok_l.
      rewrite DataFrame_duals_timeindex, decide_True by done.
      rewrite bind_Ok_l.
      destruct (dict_get [ANode grp.1] r) as [e|] eqn:He; [|by eexists].
      unfold set_column. rewrite decide_True; [by eexists|].
      rewrite length_map, (mapM_Ok_length _ _ _ Hm). symmetry.
      apply (Hrows grp); [by left|done]. }
    simpl. rewrite Hr1. simpl. apply IH; [done| |].
    + intros grp' Hin. apply Hduals. by right.
    + intros grp' e Hin He. apply (Hrows grp'); [by right|].
      rewrite <- He. symmetry. eapply add_bus_duals_other; [|done].
      intros Heq. apply Hgrp, list_elem_of_fmap. by exists grp'.
Qed.

(** The second loop runs through when every balance key has a dual value,
    every bus has as many balance keys as there are time steps, or a single
    one, and the sequence tables that are in the store for these buses have
    as many rows as the bus has balance keys. *)
Lemma add_duals_succeeds (es : EnergySystem) (om : OperationalModel)
    (d : list (Node * Z * Q)) (results : store) :
  dual om = Some d →
  (∀ p, p ∈ Bus_balance om → is_Some (dict_get p d)) →
  (∀ b t, (b, t) ∈ Bus_balance om →
     length (filter (λ p : Node * Z, p.1 = b) (Bus_balance om))
       = length (timeindex es) ∨
     length (filter (λ p : Node * Z, p.1 = b) (Bus_balance om)) = 1%nat) →
  (∀ b t e, (b, t) ∈ Bus_balance om →
     dict_get [ANode b] results = Some e →
     length (index (sequences e))
       = length (filter (λ p : Node * Z, p.1 = b) (Bus_balance om))) →
  ∃ results', add_duals es om results = Ok results'.
Proof.
  intros Hd Hdual Hkeys Hrows. unfold add_duals. rewrite Hd.
  set (l := sort_by balance_leb (Bus_balance om)).
  pose proof (sorted_Bus_balance (Bus_balance om)) as Hs. fold l in Hs.
  destruct (groupby_bus_sorted l Hs) as [Hnd Hgrp].
  pose proof (groupby_bus_groups l) as Hgs. rewrite Forall_forall in Hgs.
  assert (∀ grp, grp ∈ groupby_bus l → ∃ t, (grp.1, t) ∈ Bus_balance om)
    as Hbal.
  { intros grp Hin. destruct (Hgs _ Hin) as [Hne Hall].
    destruct grp as [b [|[b' t] g]]; [done|]. simpl in *.
    apply Forall_cons in Hall as [[Hb Hl] _]. simpl in Hb. subst b'.
    exists t. by apply elem_of_sort_by in Hl. }
  assert (∀ b g, (b, g) ∈ groupby_bus l →
            length g
              = length (filter (λ p : Node * Z, p.1 = b) (Bus_balance om)))
    as Hcount.
  { intros b g Hin. rewrite (Hgrp _ _ Hin). apply Permutation_length.
    unfold l. by rewrite sort_by_perm. }
  apply foldM_add_bus_duals_succeeds; [done| |].
  - intros [b g] Hin. simpl.
    destruct (mapM_total (λ p : Node * Z, dual_value d b p.2) g)
      as [duals Hm].
    { intros p Hp. destruct (Hgs _ Hin) as [_ Hall].
      rewrite Forall_forall in Hall. destruct (Hall _ Hp) as [Hb Hl].
      simpl in Hb. apply elem_of_sort_by in Hl.
      destruct (Hdual _ Hl) as [q Hq]. exists q. unfold dual_value.
      destruct p as [b' t]. simpl in *. subst b'. by rewrite Hq. }
    exists duals. split; [done|].
    rewrite (mapM_Ok_length _ _ _ Hm), (Hcount _ _ Hin).
    destruct (Hbal _ Hin) as [t Ht]. simpl in Ht. by eapply Hkeys.
  - intros [b g] e Hin He. simpl in *. rewrite (Hcount _ _ Hin).
    destruct (Hbal _ Hin) as [t Ht]. eauto.
Qed.

(** C4: when the model has duals, every bus with a balance constraint gets
    its entry under its 1-tuple.  The attachment runs through when every
    balance key has a dual value, every bus has as many balance keys as
    there are time steps, or a single one, and the tables it meets have as
    many rows as the bus has balance keys.  And whenever it runs through:
    the time steps of the bus are taken in ascending order and the dual
    values follow them one by one.  When the key was in the store there are
    as many dual values as its table has rows, the entry keeps its scalars
    and row labels and its sequence table has the ['duals'] column set to
    these values, added as the last column when the table had none of that
    name.  Otherwise the entry is new, with no scalars and a ['duals']
    column over the time index as only sequence: the dual values when there
    are as many as time steps, and else the single dual value of the bus
    repeated for every time step. *)
Theorem add_duals_attaches_duals
    (es : EnergySystem) (om : OperationalModel) (d : list (Node * Z * Q))
    (results : store) (b : Node) (t0 : Z) :
  dual om = Some d →
  (b, t0) ∈ Bus_balance om →
  ((∀ p, p ∈ Bus_balance om → is_Some (dict_get p d)) →
   (∀ b' t, (b', t) ∈ Bus_balance om →
      length (filter (λ p : Node * Z, p.1 = b') (Bus_balance om))
        = length (timeindex es) ∨
      length (filter (λ p : Node * Z, p.1 = b') (Bus_balance om)) = 1%nat) →
   (∀ b' t e, (b', t) ∈ Bus_balance om →
      dict_get [ANode b'] results = Some e →
      length (index (sequences e))
        = length (filter (λ p : Node * Z, p.1 = b') (Bus_balance om))) →
   ∃ results', add_duals es om results = Ok results') ∧
  ∀ results', add_duals es om results = Ok results' →
  ∃ ts duals,
    ts ≡ₚ map snd (filter (λ p : Node * Z, p.1 = b) (Bus_balance om)) ∧
    StronglySorted Z.le ts ∧
    Forall2 (λ t q, dict_get (b, t) d = Some q) ts duals ∧
    match dict_get [ANode b] results with
    | Some e =>
        length duals = length (index (sequences e)) ∧
        ∃ e', dict_get [ANode b] results' = Some e' ∧
              scalars e' = scalars e ∧
              index (sequences e') = index (sequences e) ∧
              columns (sequences e') =
                dict_set "duals" (map Some duals) (columns (sequences e)) ∧
              dict_get "duals" (columns (sequences e'))
                = Some (map Some duals) ∧
              ("duals" ∉ (columns (sequences e)).*1 →
               columns (sequences e') =
                 columns (sequences e) ++ [("duals", map Some duals)])
    | None =>
        ∃ col,
          dict_get [ANode b] results' =
            Some {| scalars := [];
                    sequences := {| index := timeindex es;
                                    columns := [("duals", col)] |} |} ∧
          length col = length (timeindex es) ∧
          (length duals = length (timeindex es) → col = map Some duals) ∧
          (length duals ≠ length (timeindex es) →
           ∃ q, duals = [q] ∧
                col = replicate (length (timeindex es)) (Some q))
    end.
Proof.
  intros Hd Hb. split; [by apply add_duals_succeeds|].
  intros results' H. unfold add_duals in H. rewrite Hd in H.
  set (l := sort_by balance_leb (Bus_balance om)) in *.
  pose proof (sorted_Bus_balance (Bus_balance om)) as Hs. fold l in Hs.
  destruct (groupby_bus_sorted l Hs) as [Hnd Hgrp].
  assert ((b, t0) ∈ l) as Hbl by by apply elem_of_sort_by.
  destruct (groupby_bus_covers l _ Hbl) as [g Hg]. simpl in Hg.
  destruct (foldM_add_bus_duals_at _ _ _ _ _ _ _ Hnd Hg H)
    as (duals & Hm & Hlen & Hrows & Hget).
  pose proof (Hgrp _ _ Hg) as ->.
  exists (map snd (filter (λ p : Node * Z, p.1 = b) l)), duals.
  split; [by unfold l; rewrite sort_by_perm|].
  split; [by apply sorted_bus_timesteps|].
  split.
  { apply mapM_Ok_Forall2 in Hm. apply Forall2_fmap_l.
    eapply Forall2_impl; [exact Hm|]. intros p q Hq. simpl.
    unfold dual_value in Hq.
    by destruct (dict_get (b, p.2) d) as [?|]; simplify_eq. }
  rewrite Hget. destruct (dict_get [ANode b] results) as [e|]; simpl.
  - split; [by apply Hrows|].
    eexists. split; [done|]. simpl. repeat split.
    + apply dict_get_set_eq.
    + apply dict_set_new.
  - exists (duals_over_timeindex es duals). split; [done|].
    split; [by apply duals_over_timeindex_length|].
    split; [apply duals_over_timeindex_aligned|].
    intros Hne. destruct Hlen as [Hlen|Hlen]; [done|].
    destruct duals as [|q [|q' duals]]; [done| |done]. by exists q.
Qed.

Lemma add_duals_attaches_duals_witness :
  ∃ ts duals,
    StronglySorted Z.le ts ∧
    Forall2 (λ t q, dict_get (bel, t)
               [((bel, 0), 11 # 10); ((bel, 1), 22 # 10); ((bel, 2), 33 # 10)]
             = Some q) ts duals ∧
    ∃ e', dict_get [ANode bel] [([ANode bel], entry_bel_duals)] = Some e' ∧
          columns (sequences e') =
            dict_set "duals" (map Some duals) (columns (sequences entry_bel)).
Proof.
  destruct (proj2 (add_duals_attaches_duals es3 om_duals
              [((bel, 0), 11 # 10); ((bel, 1), 22 # 10); ((bel, 2), 33 # 10)]
              [([ANode bel], entry_bel)] bel 2 eq_refl
              ltac:(vm_compute; left))
              [([ANode bel], entry_bel_duals)] ltac:(vm_compute; reflexivity))
    as (ts & duals & _ & Hs & Hd & _ & e' & He' & _ & _ & Hc & _).
  exists ts, duals. split; [exact Hs|]. split; [exact Hd|].
  exists e'. split; [exact He' | exact Hc].
Defined.

(** ** Misaligned duals *)

Lemma groupby_keys (df : list df_row) :
  (groupby_oemof_tuple df).*1 =
    sort_by tuple_leb (remove_dups (map oemof_tuple df)).
Proof.
  unfold groupby_oemof_tuple. rewrite <- list_fmap_compose.
  apply list_fmap_id.
Qed.










(** * Further properties of the extraction *)

(** ** Total orders *)

Section CmpFacts.
Context {A : Type} (cmp : A → A → comparison) (Hcmp : cmp_ok cmp).

Lemma cmp_leb_total (x y : A) :
  not_gt (cmp x y) = true ∨ not_gt (cmp y x) = true.
Proof.
  rewrite (cmp_antisym cmp Hcmp x y). destruct (cmp x y); simpl; auto.
Qed.

Lemma cmp_leb_trans (x y z : A) :
  not_gt (cmp x y) = true → not_gt (cmp y z) = true →
  not_gt (cmp x z) = true.
Proof.
  destruct (cmp x y) eqn:Hxy; [| |done];
    destruct (cmp y z) eqn:Hyz; try done; intros _ _.
  - apply (cmp_eq cmp Hcmp) in Hxy as ->. by rewrite Hyz.
  - apply (cmp_eq cmp Hcmp) in Hxy as ->. by rewrite Hyz.
  - apply (cmp_eq cmp Hcmp) in Hyz as <-. by rewrite Hxy.
  - by rewrite (cmp_trans cmp Hcmp x y z).
Qed.

Lemma cmp_leb_antisym (x y : A) :
  not_gt (cmp x y) = true → not_gt (cmp y x) = true → x = y.
Proof.
  rewrite (cmp_antisym cmp Hcmp x y).
  destruct (cmp x y) eqn:Hxy; try done. intros _ _.
  by apply (cmp_eq cmp Hcmp).
Qed.

Lemma cmp_sort_sorted (l : list A) :
  StronglySorted (λ x y, not_gt (cmp x y) = true)
                 (sort_by (λ x y, not_gt (cmp x y)) l).
Proof. apply sort_by_sorted; [apply cmp_leb_total | apply cmp_leb_trans]. Qed.

(** Sorting forgets the order the elements came in. *)
Lemma cmp_sort_perm (l l' : list A) :
  l ≡ₚ l' →
  sort_by (λ x y, not_gt (cmp x y)) l = sort_by (λ x y, not_gt (cmp x y)) l'.
Proof.
  intros Hl.
  apply (StronglySorted_unique_strong (λ x y, not_gt (cmp x y) = true)).
  - intros x y _ _. apply cmp_leb_antisym.
  - apply cmp_sort_sorted.
  - apply cmp_sort_sorted.
  - by rewrite !sort_by_perm.
Qed.
End CmpFacts.

Lemma string_cmp_ok : cmp_ok String.compare.
Proof.
  split.
  - apply string_compare_refl.
  - apply String.compare_eq_iff.
  - intros x y. apply String.compare_antisym.
  - apply string_compare_Lt_trans.
Qed.

Lemma Z_cmp_ok : cmp_ok Z.compare.
Proof.
  split.
  - apply Z.compare_refl.
  - apply Z.compare_eq.
  - intros x y. apply Z.compare_antisym.
  - intros x y z. rewrite !Z.compare_lt_iff. lia.
Qed.

Lemma atom_cmp_ok : cmp_ok atom_compare.
Proof.
  split.
  - intros [|z|s|[l]]; simpl; auto using Z.compare_refl, string_compare_refl.
  - intros [|x|s|[l]] [|y|t|[m]]; simpl; try done.
    + by intros ->%Z.compare_eq.
    + by intros ->%String.compare_eq_iff.
    + by intros ->%String.compare_eq_iff.
  - intros [|x|s|[l]] [|y|t|[m]]; simpl; try done.
    + apply Z.compare_antisym.
    + apply String.compare_antisym.
    + apply String.compare_antisym.
  - intros [|x|s|[l]] [|y|t|[m]] [|z|u|[n]]; simpl; try done.
    + apply (cmp_trans _ Z_cmp_ok).
    + apply string_compare_Lt_trans.
    + apply string_compare_Lt_trans.
Qed.

Lemma tuple_cmp_ok : cmp_ok tuple_compare.
Proof.
  pose proof atom_cmp_ok as Ha. split.
  - induction x as [|a x IH]; simpl; [done|].
    by rewrite (cmp_refl _ Ha).
  - induction x as [|a x IH]; intros [|b y]; simpl; try done.
    destruct (atom_compare a b) eqn:Hab; try done.
    apply (cmp_eq _ Ha) in Hab as ->. by intros ->%IH.
  - induction x as [|a x IH]; intros [|b y]; simpl; try done.
    rewrite (cmp_antisym _ Ha a b).
    destruct (atom_compare a b); simpl; auto.
  - induction x as [|a x IH]; intros [|b y] [|c z]; simpl; try done.
    destruct (atom_compare a b) eqn:Hab; try done.
    + apply (cmp_eq _ Ha) in Hab as ->.
      destruct (atom_compare b c); try done. apply IH.
    + destruct (atom_compare b c) eqn:Hbc; try done.
      * apply (cmp_eq _ Ha) in Hbc as <-. by rewrite Hab.
      * by rewrite (cmp_trans _ Ha a b c).
Qed.

(** ** Dict comprehensions *)

Section DictItems.
Context {K : Type} `{EqDecision K} {V : Type}.
Implicit Types (d l : list (K * V)) (k : K).

Lemma dict_get_not_in k d : dict_get k d = None ↔ k ∉ d.*1.
Proof.
  induction d as [|[k' v'] d IH]; simpl.
  - split; [intros _; apply not_elem_of_nil | done].
  - rewrite not_elem_of_cons. destruct (decide (k = k')) as [Heq|Hne].
    + split; [discriminate | by intros [? _]].
    + rewrite IH. split; [done | by intros [_ ?]].
Qed.

Lemma dict_get_elem_of k v d : dict_get k d = Some v → (k, v) ∈ d.
Proof.
  induction d as [|[k' v'] d IH]; simpl; [done|].
  destruct (decide (k = k')) as [->|Hne].
  - intros [= ->]. left.
  - intros H. right. auto.
Qed.

Lemma foldl_dict_set_get k acc l :
  dict_get k (foldl (λ d kv, dict_set kv.1 kv.2 d) acc l) =
    match last (filter (λ kv : K * V, kv.1 = k) l) with
    | Some kv => Some kv.2
    | None => dict_get k acc
    end.
Proof.
  revert acc; induction l as [|[k0 v0] l IH]; intros acc; simpl; [done|].
  rewrite IH. destruct (decide (k0 = k)) as [->|Hne].
  - rewrite filter_cons_True by done.
    destruct (filter _ l) as [|kv f] eqn:Hf.
    + simpl. apply dict_get_set_eq.
    + rewrite last_cons_cons.
      destruct (last (kv :: f)) eqn:Hl; [done|]. by apply last_None in Hl.
  - rewrite filter_cons_False by done.
    by rewrite dict_get_set_ne.
Qed.

(** Looking a key up in [{k: v for ...}] gives the value of the last pair
    with that key. *)
Lemma dict_of_items_get k l :
  dict_get k (dict_of_items l) =
    snd <$> last (filter (λ kv : K * V, kv.1 = k) l).
Proof.
  unfold dict_of_items. rewrite foldl_dict_set_get.
  by destruct (last _).
Qed.

Lemma dict_of_items_keys_NoDup l : NoDup (dict_of_items l).*1.
Proof.
  unfold dict_of_items.
  cut (∀ acc : list (K * V), NoDup acc.*1 →
         NoDup (foldl (λ d kv, dict_set kv.1 kv.2 d) acc l).*1).
  { intros H0. apply H0. constructor. }
  induction l as [|kv l IH]; intros acc Hacc; simpl; [done|].
  by apply IH, dict_set_NoDup.
Qed.

Lemma dict_of_items_keys k l : k ∈ (dict_of_items l).*1 ↔ k ∈ l.*1.
Proof.
  destruct (dict_get k (dict_of_items l)) as [v|] eqn:Hget.
  - split; intros _.
    + rewrite dict_of_items_get in Hget.
      destruct (last _) as [[k' v']|] eqn:Hl; [|done].
      apply last_Some in Hl as [l' Hl].
      assert ((k', v') ∈ filter (λ kv : K * V, kv.1 = k) l) as Hin.
      { rewrite Hl. apply elem_of_app. right. left. }
      apply list_elem_of_filter in Hin as [Hk Hin]. simpl in Hk. subst k'.
      apply list_elem_of_fmap. by exists (k, v').
    + apply dict_get_elem_of in Hget.
      apply list_elem_of_fmap. by exists (k, v).
  - pose proof Hget as Hnot. apply dict_get_not_in in Hnot.
    split; [done|]. intros (kv & -> & Hin)%list_elem_of_fmap.
    rewrite dict_of_items_get in Hget.
    assert (kv ∈ filter (λ kv' : K * V, kv'.1 = kv.1) l) as Hf
      by by apply list_elem_of_filter.
    destruct (filter _ l) as [|x f] eqn:Heq; [by apply elem_of_nil in Hf|].
    destruct (last (x :: f)) eqn:Hl; [done|]. by apply last_None in Hl.
Qed.

Lemma dict_of_items_length l : (length (dict_of_items l) ≤ length l)%nat.
Proof.
  unfold dict_of_items.
  cut (∀ acc : list (K * V),
         (length (foldl (λ d kv, dict_set kv.1 kv.2 d) acc l)
            ≤ length acc + length l)%nat).
  { intros H0. apply (H0 []). }
  induction l as [|kv l IH]; intros acc; simpl; [lia|].
  etrans; [apply IH|].
  assert (length (dict_set kv.1 kv.2 acc) ≤ S (length acc))%nat; [|lia].
  clear. induction acc as [|[k' v'] acc IH]; simpl; [lia|].
  destruct (decide _); simpl; lia.
Qed.
End DictItems.

(** X1: the dict of variable values holds every Pyomo key once, and under a
    key it holds the value of the last record that was given that key; keys
    are built from the first and the last part of the component's name, so
    the records of two components can meet under one key. *)
Theorem var_dict_last_wins (om : OperationalModel) (k : pyomo_key) :
  NoDup (var_dict om).*1 ∧
  (k ∈ (var_dict om).*1 ↔ k ∈ (var_items om).*1) ∧
  dict_get k (var_dict om) =
    snd <$> last (filter (λ kv : pyomo_key * option Q, kv.1 = k)
                         (var_items om)) ∧
  (length (var_dict om) ≤ length (var_items om))%nat.
Proof.
  unfold var_dict. fold (var_items om).
  split; [apply dict_of_items_keys_NoDup|].
  split; [apply dict_of_items_keys|].
  split; [apply dict_of_items_get | apply dict_of_items_length].
Qed.

(** ** Component names *)

Lemma split_dot_not_nil (s : string) : split_dot s ≠ [].
Proof.
  destruct s as [|c s]; simpl; [done|].
  destruct (Ascii.eqb _ _); [done|]. by destruct (split_dot s).
Qed.

Lemma split_dot_concat (s : string) :
  String.concat "." (split_dot s) = s.
Proof.
  induction s as [|c s IH]; simpl; [done|].
  destruct (Ascii.eqb c _) eqn:Hc.
  - apply Ascii.eqb_eq in Hc as ->.
    pose proof (split_dot_not_nil s).
    simpl. destruct (split_dot s) as [|p ps]; [done|].
    simpl in *. by rewrite IH.
  - pose proof (split_dot_not_nil s).
    destruct (split_dot s) as [|p ps]; [done|].
    simpl. destruct ps as [|q ps]; simpl in *; by rewrite <- IH.
Qed.

Lemma split_dot_no_dot (p : string) : no_dot p = true → split_dot p = [p].
Proof.
  induction p as [|c p IH]; simpl; [done|].
  intros [Hc Hp]%andb_true_iff. apply negb_true_iff in Hc. rewrite Hc.
  by rewrite IH.
Qed.

Lemma split_dot_app (p rest : string) :
  no_dot p = true →
  split_dot (p ++ "." ++ rest)%string = p :: split_dot rest.
Proof.
  induction p as [|c p IH]; [done|].
  intros [Hc Hp]%andb_true_iff. apply negb_true_iff in Hc.
  change (split_dot (String c (p ++ "." ++ rest)%string)
            = String c p :: split_dot rest).
  simpl split_dot at 1. rewrite Hc. by rewrite IH.
Qed.

Lemma split_dot_parts (p : string) (ps : list string) :
  forallb no_dot (p :: ps) = true →
  split_dot (String.concat "." (p :: ps)) = p :: ps.
Proof.
  revert p; induction ps as [|q ps IH]; intros p; simpl.
  - rewrite andb_true_r. apply split_dot_no_dot.
  - intros [Hp Hps]%andb_true_iff.
    change (String.concat "." (p :: q :: ps))
      with (p ++ "." ++ String.concat "." (q :: ps))%string.
    rewrite (split_dot_app p _ Hp). f_equal. by apply IH.
Qed.

(** X2: splitting a component name at its dots loses nothing, since joining
    the parts with dots gives the name back, and always yields a part, so
    taking the first and the last part never fails.  The key of a record
    keeps the first and the last part of the name only: the parts between
    them are dropped, and a name without a dot is block name and variable
    name at once. *)
Theorem block_key_first_last_part
    (bv : BlockVar) (i : pyobj) (p : string) (ps : list string) :
  bv_name bv = String.concat "." (p :: ps) →
  forallb no_dot (p :: ps) = true →
  block_key bv i = (p, default p (last ps), i) ∧
  String.concat "." (split_dot (bv_name bv)) = bv_name bv ∧
  split_dot (bv_name bv) ≠ [].
Proof.
  intros Hname Hparts. split; [|split].
  - unfold block_key. rewrite Hname, (split_dot_parts p ps Hparts). simpl.
    do 2 f_equal. destruct ps as [|q ps]; [done|].
    rewrite last_cons_cons. simpl.
    destruct (last (q :: ps)) eqn:Hl; [done|]. by apply last_None in Hl.
  - apply split_dot_concat.
  - apply split_dot_not_nil.
Qed.

Lemma block_key_first_last_part_witness :
  block_key bv_nested (PTuple [ANode storage; AInt 0])
    = ("Storage", "level", PTuple [ANode storage; AInt 0]).
Proof.
  exact (proj1 (block_key_first_last_part bv_nested
                  (PTuple [ANode storage; AInt 0]) "Storage" ["sub"; "level"]
                  eq_refl eq_refl)).
Defined.

(** ** The index helpers, in full *)

Lemma no_entity_reference_get_tuple (x : list pyobj) :
  get_tuple x = None → no_entity_reference x.
Proof.
  induction x as [|o x IH]; simpl; [constructor|].
  destruct o as [[| | |n]|t]; try done; intros H;
    (constructor; [done | by apply IH]).
Qed.

(** X3: [get_tuple] returns the first element that is a tuple, or the
    1-tuple of the first element that is a node, whichever comes first, and
    [None] exactly when no element is a tuple or a node.  For a Pyomo key
    the block name and the variable name are passed over, so the result
    depends on the index alone. *)
Theorem get_tuple_first_match (x : list pyobj) (k : pyomo_key) :
  match get_tuple x with
  | None => no_entity_reference x
  | Some t =>
      ∃ pre o post,
        x = pre ++ o :: post ∧ no_entity_reference pre ∧
        (o = PTuple t ∨ ∃ n, o = PAtom (ANode n) ∧ t = [ANode n])
  end ∧
  get_tuple (elements k) = get_tuple [k.2].
Proof.
  split; [|done].
  induction x as [|o x IH]; simpl; [constructor|].
  destruct o as [a|t].
  - destruct a as [| | |n];
      try (destruct (get_tuple x) as [t|];
           [destruct IH as (pre & o & post & -> & Hpre & Ho);
            eexists (_ :: pre), o, post;
            split; [done|split; [by constructor|done]]
           |by constructor]).
    exists [], (PAtom (ANode n)), x. split; [done|].
    split; [constructor|]. right. eauto.
  - exists [], (PTuple t), x. split; [done|]. split; [constructor|]. by left.
Qed.

(** X4: on a tuple neither [get_timestep] nor [remove_timestep] raises: the
    last element is only asked for when some element is not a node, so the
    tuple is not empty then.  Both raise on [None] only, a [TypeError]. *)
Theorem timestep_helpers_raise_on_None_only
    (x : option (list atom)) (e : exn) :
  get_timestep x = Raise e ∨ remove_timestep x = Raise e →
  x = None ∧ e = TypeError.
Proof.
  destruct x as [t|].
  - rewrite get_timestep_tuple, remove_timestep_tuple. by intros [|].
  - by intros [[= <-]|[= <-]].
Qed.

Lemma timestep_helpers_raise_on_None_only_witness :
  @None (list atom) = None ∧ TypeError = TypeError.
Proof.
  exact (timestep_helpers_raise_on_None_only None TypeError
           (or_introl eq_refl)).
Defined.

(** ** results_to_df, in full *)

Lemma mapM_Ok_map {A B : Type} (f : A → res B) (g : A → B) (l : list A) :
  (∀ x, x ∈ l → f x = Ok (g x)) → mapM f l = Ok (map g l).
Proof.
  induction l as [|x l IH]; intros H; simpl; [done|].
  rewrite (H x) by left. simpl.
  rewrite IH; [done|]. intros y Hy. apply H. by right.
Qed.

Lemma results_to_df_rows (es : EnergySystem) (om : OperationalModel) :
  (∀ kv, kv ∈ var_dict om → get_tuple (elements kv.1) ≠ None) →
  results_to_df es om = Ok (sort_values (map row_of (var_dict om))).
Proof.
  intros Hall. unfold results_to_df.
  set (items := var_dict om) in *.
  set (ts := λ t : list atom,
         if forallb is_node t then AInt 0 else default (AInt 0) (last t)).
  set (ks := λ t : list atom,
         if forallb is_node t then t else removelast t).
  set (tup := λ kv : pyomo_key * option Q,
         default [] (get_tuple (elements kv.1))).
  rewrite (mapM_Ok_map get_timestep
             (λ x, ts (default [] x))).
  2:{ intros x (kv & -> & Hkv)%list_elem_of_fmap.
      destruct (get_tuple (elements kv.1)) eqn:Ht; [|by apply Hall in Hkv].
      by rewrite get_timestep_tuple. }
  rewrite bind_Ok_l.
  rewrite (mapM_Ok_map remove_timestep (λ x, ks (default [] x))).
  2:{ intros x (kv & -> & Hkv)%list_elem_of_fmap.
      destruct (get_tuple (elements kv.1)) eqn:Ht; [|by apply Hall in Hkv].
      by rewrite remove_timestep_tuple. }
  rewrite bind_Ok_l. do 2 f_equal.
  rewrite !map_map. clear Hall.
  induction items as [|kv items IH]; [done|].
  cbn [map zip zip_with]. f_equal. exact IH.
Qed.

Lemma results_to_df_Raise_inv (es : EnergySystem) (om : OperationalModel)
    (e : exn) :
  results_to_df es om = Raise e →
  e = TypeError ∧
  ∃ kv, kv ∈ var_dict om ∧ no_entity_reference (elements kv.1).
Proof.
  intros Hr.
  destruct (decide (Forall (λ kv : pyomo_key * option Q,
                      get_tuple (elements kv.1) ≠ None) (var_dict om)))
    as [Hall|Hex].
  - rewrite results_to_df_rows in Hr; [done|].
    intros kv Hkv. rewrite Forall_forall in Hall. by apply Hall.
  - apply not_Forall_Exists in Hex; [|intros kv; apply _].
    apply Exists_exists in Hex as (kv & Hkv & Hnone).
    assert (get_tuple (elements kv.1) = None) as Hn.
    { unfold compose in Hnone.
      destruct (get_tuple (elements kv.1)); [|done].
      exfalso. by apply Hnone. }
    rewrite (results_to_df_None es om) in Hr by eauto.
    injection Hr as <-. split; [done|]. exists kv.
    split; [done|]. by apply no_entity_reference_get_tuple.
Qed.

(** ** The comparisons the sort makes *)

Lemma py_compare_atom (a b : atom) (c : comparison) :
  py_compare a b = Some c → atom_compare a b = c.
Proof. destruct a, b; simpl; congruence. Qed.

Lemma py_tuple_compare_tuple (s t : list atom) (c : comparison) :
  py_tuple_compare s t = Some c → tuple_compare s t = c.
Proof.
  revert t; induction s as [|a s IH]; intros [|b t]; simpl; try congruence.
  destruct (decide (a = b)) as [->|Hne].
  - rewrite (cmp_refl _ atom_cmp_ok). apply IH.
  - intros Hc. apply py_compare_atom in Hc.
    destruct (atom_compare a b) eqn:Hab; [|done..].
    by apply (cmp_eq _ atom_cmp_ok) in Hab.
Qed.

Lemma py_tuple_compare_nodes (s t : list atom) :
  forallb is_node s = true → forallb is_node t = true →
  is_Some (py_tuple_compare s t).
Proof.
  revert t; induction s as [|a s IH]; intros [|b t]; simpl; try done.
  intros [Ha Hs]%andb_prop [Hb Ht]%andb_prop.
  destruct (decide (a = b)); [by apply IH|].
  by destruct a, b.
Qed.

Lemma removelast_nodes (t : list atom) :
  forallb is_node t = true → forallb is_node (removelast t) = true.
Proof.
  induction t as [|a [|b t] IH]; [done..|].
  intros [Ha Ht]%andb_prop. cbn [removelast forallb].
  rewrite Ha. by apply IH.
Qed.

(** When every index has one of the documented shapes, sorting the rows
    never compares objects of different kinds: any two relation keys and
    any two time steps have a comparison in Python, and it is the one the
    sort of the rows uses. *)
Lemma comparable_indices_rows (es : EnergySystem) (om : OperationalModel)
    (df : list df_row) (r1 r2 : df_row) :
  comparable_indices om → results_to_df es om = Ok df →
  r1 ∈ df → r2 ∈ df →
  py_tuple_compare (oemof_tuple r1) (oemof_tuple r2)
    = Some (tuple_compare (oemof_tuple r1) (oemof_tuple r2)) ∧
  py_compare (timestep r1) (timestep r2)
    = Some (atom_compare (timestep r1) (timestep r2)).
Proof.
  intros Hcmp Hdf.
  assert (∀ kv, kv ∈ var_dict om → get_tuple (elements kv.1) ≠ None) as Hall.
  { intros kv Hkv Hnone.
    rewrite (results_to_df_None es om) in Hdf by eauto. done. }
  rewrite (results_to_df_rows es om Hall) in Hdf. injection Hdf as <-.
  assert (∀ r, r ∈ sort_values (map row_of (var_dict om)) →
            forallb is_node (oemof_tuple r) = true ∧
            ∃ z, timestep r = AInt z) as Hrow.
  { intros r Hr. apply elem_of_sort_by in Hr.
    apply list_elem_of_fmap in Hr as (kv & -> & Hkv).
    unfold row_of. cbn [oemof_tuple timestep].
    destruct (get_tuple (elements kv.1)) as [t|] eqn:Ht;
      [|by apply Hall in Hkv].
    pose proof (Hcmp kv t Hkv Ht) as Hshape. unfold index_shape in Hshape.
    unfold default, from_option, id.
    destruct (forallb is_node t) eqn:Hn.
    { split; [exact Hn|by exists 0]. }
    simpl in Hshape. apply andb_prop in Hshape as [Hinit Hlast].
    split; [done|].
    destruct (last t) as [[| z | |]|]; try done. by exists z. }
  intros H1 H2.
  destruct (Hrow _ H1) as [Hn1 [z1 Hz1]], (Hrow _ H2) as [Hn2 [z2 Hz2]].
  split.
  - destruct (py_tuple_compare_nodes _ _ Hn1 Hn2) as [c Hc].
    by rewrite (py_tuple_compare_tuple _ _ _ Hc).
  - by rewrite Hz1, Hz2.
Qed.

Lemma comparable_indices_check (om : OperationalModel) :
  forallb (λ kv, from_option index_shape true (get_tuple (elements kv.1)))
          (var_dict om) = true →
  comparable_indices om.
Proof.
  intros H kv t Hkv Ht. rewrite forallb_forall in H.
  apply list_elem_of_In in Hkv. specialize (H kv Hkv). by rewrite Ht in H.
Qed.

(** X5: for a model whose record indices, where they hold a tuple or a
    node, have the documented shapes (entities, optionally followed by an
    integer time step), so that the rows can be sorted: [results_to_df]
    raises exactly when a record's Pyomo tuple holds no tuple and no node,
    and what it raises then is a [TypeError]; nothing else makes it fail. *)
Theorem results_to_df_raises_iff
    (es : EnergySystem) (om : OperationalModel) (e : exn) :
  comparable_indices om →
  results_to_df es om = Raise e ↔
  e = TypeError ∧
  ∃ kv, kv ∈ var_dict om ∧ no_entity_reference (elements kv.1).
Proof.
  intros _. split; [apply results_to_df_Raise_inv|].
  intros [-> (kv & Hkv & Hno)]. apply results_to_df_None.
  exists kv. split; [done|]. by apply get_tuple_no_entity.
Qed.

Lemma results_to_df_raises_iff_witness :
  results_to_df es3 om_invest ≠ Raise TypeError ∧
  results_to_df es3 om_timestep_only = Raise TypeError.
Proof.
  split.
  - intros He.
    destruct (proj1 (results_to_df_raises_iff es3 om_invest TypeError
                (comparable_indices_check om_invest
                   ltac:(vm_compute; reflexivity))) He)
      as (_ & kv & Hkv & Hno).
    vm_compute in Hkv.
    repeat (apply elem_of_cons in Hkv as [->|Hkv];
            [by apply Forall_cons in Hno
               as [_ [_ [[] _]%Forall_cons]%Forall_cons]|]).
    by apply elem_of_nil in Hkv.
  - apply (proj2 (results_to_df_raises_iff es3 om_timestep_only TypeError
                    (comparable_indices_check om_timestep_only
                       ltac:(vm_compute; reflexivity)))).
    split; [reflexivity|].
    exists (("Storage", "level", PAtom (AInt 0)), Some (1 # 1)).
    split; [vm_compute; left|]. by repeat constructor.
Defined.

(** ** The order of the rows *)

Lemma row_leb_total (r1 r2 : df_row) :
  row_leb r1 r2 = true ∨ row_leb r2 r1 = true.
Proof.
  unfold row_leb.
  rewrite (cmp_antisym _ tuple_cmp_ok (oemof_tuple r1) (oemof_tuple r2)).
  destruct (tuple_compare (oemof_tuple r1) (oemof_tuple r2)); simpl; auto.
  apply (cmp_leb_total _ atom_cmp_ok).
Qed.

Lemma row_leb_trans (r1 r2 r3 : df_row) :
  row_leb r1 r2 = true → row_leb r2 r3 = true → row_leb r1 r3 = true.
Proof.
  unfold row_leb.
  destruct (tuple_compare (oemof_tuple r1) (oemof_tuple r2)) eqn:H12;
    [| |done];
    destruct (tuple_compare (oemof_tuple r2) (oemof_tuple r3)) eqn:H23;
    try done.
  - apply (cmp_eq _ tuple_cmp_ok) in H12, H23. rewrite H12, H23.
    rewrite (cmp_refl _ tuple_cmp_ok). apply (cmp_leb_trans _ atom_cmp_ok).
  - apply (cmp_eq _ tuple_cmp_ok) in H12. by rewrite H12, H23.
  - apply (cmp_eq _ tuple_cmp_ok) in H23. by rewrite <- H23, H12.
  - by rewrite (cmp_trans _ tuple_cmp_ok _ _ _ H12 H23).
Qed.

(** X6: when [results_to_df] returns, the data frame has one row for every
    entry of the dict of variable values and no other row; a row carries
    the entry's value, the variable name out of its key, and the relation
    key and time step the two helpers give for its index; and the rows are
    in ascending order of relation key and, under one key, of time step. *)
Theorem results_to_df_rows_sorted
    (es : EnergySystem) (om : OperationalModel) (df : list df_row) :
  results_to_df es om = Ok df →
  map (λ r, (pyomo_tuple r, value r)) df ≡ₚ var_dict om ∧
  Forall (λ r,
            variable_name r = (pyomo_tuple r).1.2 ∧
            remove_timestep (get_tuple (elements (pyomo_tuple r)))
              = Ok (oemof_tuple r) ∧
            get_timestep (get_tuple (elements (pyomo_tuple r)))
              = Ok (timestep r)) df ∧
  StronglySorted (λ r1 r2, row_leb r1 r2 = true) df.
Proof.
  intros Hdf.
  assert (∀ kv, kv ∈ var_dict om → get_tuple (elements kv.1) ≠ None) as Hall.
  { intros kv Hkv Hnone.
    rewrite (results_to_df_None es om) in Hdf by eauto. done. }
  rewrite (results_to_df_rows es om Hall) in Hdf. injection Hdf as <-.
  unfold sort_values. split; [|split].
  - rewrite sort_by_perm, map_map.
    rewrite (map_ext _ id); [by rewrite map_id|]. by intros [k v].
  - apply Forall_forall. intros r Hr. apply elem_of_sort_by in Hr.
    apply list_elem_of_fmap in Hr as (kv & -> & Hkv).
    unfold row_of. cbn [pyomo_tuple variable_name oemof_tuple timestep].
    destruct (get_tuple (elements kv.1)) as [t|] eqn:Ht;
      [|by apply Hall in Hkv].
    rewrite get_timestep_tuple, remove_timestep_tuple. done.
  - apply sort_by_sorted; [apply row_leb_total | apply row_leb_trans].
Qed.

Lemma results_to_df_rows_sorted_witness :
  StronglySorted (λ r1 r2, row_leb r1 r2 = true) (df_of es3 om_invest).
Proof.
  exact (proj2 (proj2 (results_to_df_rows_sorted es3 om_invest
           (df_of es3 om_invest) ltac:(vm_compute; reflexivity)))).
Defined.

(** ** The outcome of splitting one relation key *)

Lemma pivot_pivot_table (v : list df_row) :
  pivot v = if decide (no_duplicate_cells v) then Ok (pivot_table v)
            else Raise ValueError.
Proof. done. Qed.

Lemma time_steps_length (v : list df_row) :
  length (time_steps v) = length (remove_dups (map timestep v)).
Proof. apply sort_by_length. Qed.

Lemma split_group_cases (es : EnergySystem) (v : list df_row) :
  split_group es v =
    if decide (no_duplicate_cells v) then
      if decide (aligned es v) then
        s ← iloc0 (dropna {| index := timeindex es;
                             columns := scalar_columns v |});
        Ok {| scalars := s;
              sequences :=
                {| index := timeindex es;
                   columns := List.filter (λ c, negb (any_null c))
                                          (columns (pivot_table v)) |} |}
      else Raise ValueError
    else Raise ValueError.
Proof.
  unfold split_group. rewrite pivot_pivot_table.
  destruct (decide (no_duplicate_cells v)); [|done].
  rewrite bind_Ok_l. unfold set_index. cbn [index pivot_table].
  rewrite time_steps_length. unfold aligned.
  destruct (decide (length (timeindex es) = _)) as [Heq|Hne];
    destruct (decide (_ = length (timeindex es))) as [Heq'|Hne'];
    try done; congruence.
Qed.

Lemma iloc0_dropna_not_Ok {I : Type} (f : frame I) (e : exn) :
  iloc0 (dropna f) = Raise e →
  e = IndexError ∧
  ∀ j, (j < length (index f))%nat → row_complete (columns f) j = false.
Proof.
  unfold iloc0, dropna; simpl.
  destruct (List.filter _ (seq 0 (length (index f)))) as [|i r] eqn:Hkeep;
    simpl.
  - intros [= <-]. split; [done|]. intros j Hj.
    destruct (row_complete (columns f) j) eqn:Hc; [|done].
    assert (j ∈ List.filter (row_complete (columns f))
                            (seq 0 (length (index f)))) as Hin.
    { apply elem_of_filter_bool. split; [|done].
      apply list_elem_of_In, in_seq. lia. }
    rewrite Hkeep in Hin. by apply elem_of_nil in Hin.
  - apply filter_seq_first in Hkeep as (Hi & _ & _).
    destruct (index f !! i) as [x|] eqn:Hx;
      [|apply lookup_ge_None in Hx; lia].
    done.
Qed.

Lemma pivot_table_column_length (v : list df_row)
    (c : string * list (option Q)) :
  c ∈ columns (pivot_table v) →
  c.2 = map (λ t, cell v t c.1) (time_steps v) ∧
  length c.2 = length (time_steps v).
Proof.
  intros (n & -> & _)%list_elem_of_fmap. simpl. by rewrite length_map.
Qed.

Lemma not_any_null_Forall (c : string * list (option Q)) :
  negb (any_null c) = true → Forall (λ x, isnull x = false) c.2.
Proof.
  intros Hnn%negb_true_iff. unfold any_null in Hnn.
  apply Forall_forall. intros x Hx.
  destruct (isnull x) eqn:Hnull; [|done].
  assert (existsb isnull c.2 = true) as Hex; [|congruence].
  apply existsb_exists. exists x. by rewrite <- list_elem_of_In.
Qed.

(** X7: what splitting the rows of one relation key ends in.  It raises a
    [ValueError] exactly when two rows share time step and variable name or
    the number of distinct time steps is not the length of the time index;
    it raises an [IndexError] exactly when the table is fine but at every
    time step one of the variables with a missing value is missing; and it
    raises nothing else.  When it returns, the sequence table is labelled
    by the time index and every column has one number per time step, and
    every scalar is a number. *)
Theorem split_group_outcome (es : EnergySystem) (v : list df_row) :
  match split_group es v with
  | Raise e =>
      (e = ValueError ∧ (¬ no_duplicate_cells v ∨ ¬ aligned es v)) ∨
      (e = IndexError ∧ no_duplicate_cells v ∧ aligned es v ∧
       ∀ i, (i < length (timeindex es))%nat →
            row_complete (scalar_columns v) i = false)
  | Ok e =>
      no_duplicate_cells v ∧ aligned es v ∧ entry_wf es e ∧
      ∃ i, (i < length (timeindex es))%nat ∧
           row_complete (scalar_columns v) i = true
  end.
Proof.
  rewrite split_group_cases.
  destruct (decide (no_duplicate_cells v)) as [Hnd|Hnd]; [|left; auto].
  destruct (decide (aligned es v)) as [Hal|Hal]; [|left; auto].
  destruct (iloc0 _) as [s|e] eqn:Hs; simpl.
  - apply iloc0_dropna_Ok in Hs as (i & Hi & Hrow & _ & ->). simpl in *.
    split; [done|]. split; [done|]. split; [|eauto].
    split; [done|]. simpl. split.
    + apply Forall_forall. intros c [Hc Hnn]%elem_of_filter_bool.
      destruct (pivot_table_column_length _ _ Hc) as [_ Hlen].
      split; [|by apply not_any_null_Forall].
      rewrite Hlen, time_steps_length. exact Hal.
    + apply Forall_fmap, Forall_forall. intros c Hc. simpl.
      by eapply row_complete_lookup.
  - apply iloc0_dropna_not_Ok in Hs as [-> Hrows]. right. auto.
Qed.

(** ** Cells of the pivot table *)

Lemma NoDup_fmap_inj_on {A B : Type} (f : A → B) (l : list A) (x y : A) :
  NoDup (f <$> l) → x ∈ l → y ∈ l → f x = f y → x = y.
Proof.
  induction l as [|z l IH]; [by intros _ ?%elem_of_nil|].
  rewrite fmap_cons, NoDup_cons. intros [Hz Hnd] Hx Hy Hf.
  apply elem_of_cons in Hx as [->|Hx]; apply elem_of_cons in Hy as [->|Hy].
  - done.
  - exfalso. apply Hz. rewrite Hf. by apply list_elem_of_fmap_2.
  - exfalso. apply Hz. rewrite <- Hf. by apply list_elem_of_fmap_2.
  - by apply IH.
Qed.

Lemma cell_of_row (v : list df_row) (r : df_row) :
  no_duplicate_cells v → r ∈ v →
  cell v (timestep r) (variable_name r) = value r.
Proof.
  intros Hnd Hr. unfold cell.
  destruct (list_find _ v) as [[i r']|] eqn:Hfind.
  - apply list_find_Some in Hfind as (Hi & [Ht Hn] & _). simpl.
    f_equal. symmetry.
    apply (NoDup_fmap_inj_on (λ r, (timestep r, variable_name r)) v);
      [done | done | by eapply list_elem_of_lookup_2 | by f_equal].
  - apply list_find_None in Hfind. rewrite Forall_forall in Hfind.
    by destruct (Hfind _ Hr).
Qed.

Lemma cell_Some (v : list df_row) (t : atom) (c : string) (q : Q) :
  cell v t c = Some q →
  ∃ r, r ∈ v ∧ timestep r = t ∧ variable_name r = c ∧ value r = Some q.
Proof.
  unfold cell. destruct (list_find _ v) as [[i r]|] eqn:Hfind; [|done].
  apply list_find_Some in Hfind as (Hi & [Ht Hn] & _). simpl.
  intros Hv. exists r. split; [by eapply list_elem_of_lookup_2 | done].
Qed.

Lemma elem_of_time_steps (v : list df_row) (t : atom) :
  t ∈ time_steps v ↔ ∃ r, r ∈ v ∧ timestep r = t.
Proof.
  unfold time_steps.
  rewrite elem_of_sort_by, elem_of_remove_dups, list_elem_of_fmap.
  split; intros (r & H1 & H2); exists r; auto.
Qed.

Lemma elem_of_pivot_columns (v : list df_row)
    (c : string * list (option Q)) :
  c ∈ columns (pivot_table v) ↔
  (∃ r, r ∈ v ∧ variable_name r = c.1) ∧
  c.2 = map (λ t, cell v t c.1) (time_steps v).
Proof.
  unfold pivot_table. cbn [columns]. rewrite list_elem_of_fmap. split.
  - intros (n & -> & Hn). simpl. split; [|done].
    rewrite elem_of_sort_by, elem_of_remove_dups, list_elem_of_fmap in Hn.
    destruct Hn as (r & -> & Hr). eauto.
  - intros [(r & Hr & Hn) Hc]. exists c.1. split.
    + destruct c as [n col]. simpl in *. by subst.
    + rewrite elem_of_sort_by, elem_of_remove_dups, list_elem_of_fmap.
      eauto.
Qed.

(** X8: a variable of a relation key whose every recorded value is [None]
    makes the split of that key raise an [IndexError], although the rows
    are aligned with the time index: its column is missing at every time
    step, so no row is left to read the scalars from. *)
Theorem all_missing_variable_raises
    (es : EnergySystem) (v : list df_row) (r0 : df_row) :
  no_duplicate_cells v →
  aligned es v →
  r0 ∈ v →
  (∀ r, r ∈ v → variable_name r = variable_name r0 → value r = None) →
  split_group es v = Raise IndexError.
Proof.
  intros Hnd Hal Hr0 Hnone. rewrite split_group_cases.
  rewrite decide_True by done. rewrite decide_True by done.
  set (c := variable_name r0).
  set (col := map (λ t, cell v t c) (time_steps v)).
  assert (Forall (λ x, x = None) col) as Hcol.
  { apply Forall_fmap, Forall_forall. intros t _. simpl.
    destruct (cell v t c) as [q|] eqn:Hcell; [|done].
    apply cell_Some in Hcell as (r & Hr & _ & Hn & Hv).
    by rewrite (Hnone r Hr Hn) in Hv. }
  assert (length col = length (timeindex es)) as Hlen.
  { unfold col. by rewrite length_map, time_steps_length. }
  assert ((c, col) ∈ scalar_columns v) as Hin.
  { apply elem_of_filter_bool. split.
    - apply elem_of_pivot_columns. split; [by exists r0|done].
    - unfold any_null. simpl.
      assert (timestep r0 ∈ time_steps v) as Ht
        by (apply elem_of_time_steps; eauto).
      unfold col. destruct (time_steps v) as [|t ts];
        [by apply elem_of_nil in Ht|].
      apply Forall_cons in Hcol as [Hc _]. simpl in *. by rewrite Hc. }
  rewrite iloc0_dropna_Raise; [done|]. simpl. intros j Hj.
  destruct (row_complete (scalar_columns v) j) eqn:Hrow; [|done].
  unfold row_complete in Hrow. rewrite forallb_forall in Hrow.
  apply list_elem_of_In in Hin. specialize (Hrow _ Hin). simpl in Hrow.
  destruct (col !! j) as [x|] eqn:Hx;
    [|apply lookup_ge_None in Hx; lia].
  rewrite Forall_forall in Hcol.
  rewrite (Hcol x) in Hrow; [done|]. by eapply list_elem_of_lookup_2.
Qed.

(** X17: a relation key whose records are all at time step 0, as the
    records of variables without a time index are, cannot be split unless
    the time index has exactly one step: the table has one row, and
    labelling it with the time index raises a [ValueError]. *)
Theorem scalar_only_key_raises
    (es : EnergySystem) (v : list df_row) (r0 : df_row) :
  r0 ∈ v →
  (∀ r, r ∈ v → timestep r = AInt 0) →
  length (timeindex es) ≠ 1%nat →
  split_group es v = Raise ValueError.
Proof.
  intros Hr0 Hzero Hlen. apply split_group_misaligned.
  assert (remove_dups (map timestep v) = [AInt 0]) as ->; [|done].
  assert (map timestep v = replicate (length v) (AInt 0)) as ->.
  { clear Hr0. induction v as [|r v IH]; simpl; [done|].
    rewrite (Hzero r) by left. f_equal. apply IH.
    intros r' Hr'. apply Hzero. by right. }
  destruct v as [|r v]; [by apply elem_of_nil in Hr0|].
  clear. simpl length. induction (length v) as [|n IH]; [done|].
  change (replicate (S (S n)) (AInt 0))
    with (AInt 0 :: replicate (S n) (AInt 0)).
  cbn [remove_dups].
  destruct (decide_rel elem_of (AInt 0) (replicate (S n) (AInt 0)))
    as [_|Hn]; [exact IH|].
  exfalso. apply Hn. left.
Qed.

Lemma filter_bool_none {A : Type} (P : A → bool) (l : list A) :
  (∀ x, x ∈ l → P x = false) → List.filter P l = [].
Proof.
  induction l as [|x l IH]; intros H; simpl; [done|].
  rewrite (H x) by left. apply IH. intros y Hy. apply H. by right.
Qed.

Lemma filter_bool_all {A : Type} (P : A → bool) (l : list A) :
  (∀ x, x ∈ l → P x = true) → List.filter P l = l.
Proof.
  induction l as [|x l IH]; intros H; simpl; [done|].
  rewrite (H x) by left. f_equal. apply IH. intros y Hy. apply H. by right.
Qed.

(** X19: with a time index of a single step nothing comes out as a scalar:
    when the split of a relation key returns, every variable of the key is
    a sequence column, the variables without a time index too. *)
Theorem single_step_has_no_scalars
    (es : EnergySystem) (v : list df_row) (e : entry) :
  length (timeindex es) = 1%nat →
  split_group es v = Ok e →
  scalars e = [] ∧ columns (sequences e) = columns (pivot_table v).
Proof.
  intros Hone Hsplit. rewrite split_group_cases in Hsplit.
  destruct (decide (no_duplicate_cells v)); [|done].
  destruct (decide (aligned es v)) as [Hal|]; [|done].
  inv_bind Hsplit. injection Hsplit as <-. simpl.
  apply iloc0_dropna_Ok in Ha as (i & Hi & Hrow & _ & ->). simpl in *.
  assert (i = 0%nat) as -> by lia.
  assert (∀ c, c ∈ columns (pivot_table v) → any_null c = false) as Hnn.
  { intros c Hc. destruct (any_null c) eqn:Hnull; [|done].
    assert (c ∈ scalar_columns v) as Hsc by by apply elem_of_filter_bool.
    pose proof (row_complete_lookup _ _ _ Hrow Hsc) as Hcell.
    destruct (pivot_table_column_length _ _ Hc) as [_ Hlen].
    rewrite time_steps_length in Hlen. unfold aligned in Hal.
    unfold any_null in Hnull.
    destruct c as [nm [|x [|y col]]]; simpl in *; try lia.
    rewrite orb_false_r in Hnull. congruence. }
  split.
  - unfold scalar_columns. rewrite filter_bool_none; done.
  - apply (filter_bool_all (λ c, negb (any_null c))).
    intros c Hc. by rewrite (Hnn c Hc).
Qed.

Lemma float_values_check (v : list df_row) :
  forallb (λ r, from_option float64_exact true (value r)) v = true →
  float_values v.
Proof.
  intros H r q Hr Hq. rewrite forallb_forall in H.
  apply list_elem_of_In in Hr. specialize (H r Hr). by rewrite Hq in H.
Qed.

(** X18: splitting a relation key neither invents nor moves a value, as
    long as the recorded values are numbers a 64-bit float holds exactly
    (pandas turns a table with a missing cell into floats).  For every row
    of the key, its variable is a scalar or a sequence column, and in the
    second case the column holds the row's value at the position its time
    step has among the ascending time steps of the key, which is also a
    position of the time index.  And there is one time step at which each
    scalar is the value recorded for its variable. *)
Theorem split_group_keeps_values
    (es : EnergySystem) (v : list df_row) (e : entry) (r : df_row) :
  float_values v →
  split_group es v = Ok e →
  r ∈ v →
  (∃ i, time_steps v !! i = Some (timestep r) ∧
        is_Some (timeindex es !! i) ∧
        (variable_name r ∈ (scalars e).*1 ∨
         ∃ col, (variable_name r, col) ∈ columns (sequences e) ∧
                col !! i = Some (value r))) ∧
  (∃ t0, t0 ∈ time_steps v ∧
     ∀ s, s ∈ scalars e →
       ∃ r0, r0 ∈ v ∧ timestep r0 = t0 ∧ variable_name r0 = s.1 ∧
             value r0 = s.2 ∧ isnull s.2 = false).
Proof.
  intros _ Hsplit Hr. rewrite split_group_cases in Hsplit.
  destruct (decide (no_duplicate_cells v)) as [Hnd|]; [|done].
  destruct (decide (aligned es v)) as [Hal|]; [|done].
  inv_bind Hsplit. injection Hsplit as <-.
  apply iloc0_dropna_Ok in Ha as (i0 & Hi0 & Hrow & _ & ->).
  cbn [scalars sequences columns index] in *.
  assert (length (time_steps v) = length (timeindex es)) as Hlen
    by by rewrite time_steps_length.
  split.
  - assert (timestep r ∈ time_steps v) as Ht
      by (apply elem_of_time_steps; eauto).
    apply list_elem_of_lookup in Ht as [i Hi]. exists i.
    split; [done|]. split.
    { apply lookup_lt_is_Some. rewrite <- Hlen.
      by eapply lookup_lt_Some. }
    set (c := (variable_name r,
               map (λ t, cell v t (variable_name r)) (time_steps v))).
    assert (c ∈ columns (pivot_table v)) as Hc.
    { apply elem_of_pivot_columns. split; [by exists r|done]. }
    destruct (any_null c) eqn:Hnull.
    + left. rewrite <- list_fmap_compose. apply list_elem_of_fmap.
      exists c. split; [done|]. by apply elem_of_filter_bool.
    + right. exists c.2. split.
      * apply elem_of_filter_bool. split; [exact Hc|].
        change (negb (any_null c) = true). by rewrite Hnull.
      * unfold c. simpl. rewrite list_lookup_fmap, Hi. simpl.
        by rewrite cell_of_row.
  - destruct (time_steps v !! i0) as [t0|] eqn:Ht0;
      [|apply lookup_ge_None in Ht0; lia].
    exists t0. split; [by eapply list_elem_of_lookup_2|].
    intros s (c & -> & Hc)%list_elem_of_fmap. simpl.
    pose proof (row_complete_lookup _ _ _ Hrow Hc) as Hnn.
    apply elem_of_filter_bool in Hc as [Hc _].
    apply elem_of_pivot_columns in Hc as [_ Hcol].
    rewrite Hcol, list_lookup_fmap, Ht0 in Hnn |- *. simpl in *.
    destruct (cell v t0 c.1) as [q|] eqn:Hcell; [|done].
    apply cell_Some in Hcell as (r0 & Hr0 & Ht & Hn & Hv).
    exists r0. done.
Qed.

Lemma split_group_keeps_values_witness :
  ∃ t0, t0 ∈ time_steps (df_of es3 om_invest) ∧
    ∀ s, s ∈ [("invest", Some (500 # 1))] →
      ∃ r0, r0 ∈ df_of es3 om_invest ∧ timestep r0 = t0 ∧
            variable_name r0 = s.1 ∧ value r0 = s.2 ∧ isnull s.2 = false.
Proof.
  exact (proj2 (split_group_keeps_values es3 (df_of es3 om_invest)
           {| scalars := [("invest", Some (500 # 1))];
              sequences :=
                {| index := [10; 11; 12];
                   columns := [("flow", [Some (10 # 1); Some (20 # 1);
                                         Some (30 # 1)])] |} |}
           {| pyomo_tuple :=
                ("InvestmentFlow", "invest", PTuple [ANode pp_gas; ANode bel]);
              value := Some (500 # 1); variable_name := "invest";
              oemof_tuple := [ANode pp_gas; ANode bel];
              timestep := AInt 0 |}
           (float_values_check (df_of es3 om_invest)
              ltac:(vm_compute; reflexivity))
           ltac:(vm_compute; reflexivity)
           ltac:(vm_compute; right; left))).
Defined.

Lemma all_missing_variable_raises_witness :
  split_group es3
    [{| pyomo_tuple := ("Bus", "slack", PTuple [ANode bel; AInt 0]);
        value := None; variable_name := "slack";
        oemof_tuple := [ANode bel]; timestep := AInt 0 |};
     {| pyomo_tuple := ("Bus", "slack", PTuple [ANode bel; AInt 1]);
        value := None; variable_name := "slack";
        oemof_tuple := [ANode bel]; timestep := AInt 1 |};
     {| pyomo_tuple := ("Bus", "slack", PTuple [ANode bel; AInt 2]);
        value := None; variable_name := "slack";
        oemof_tuple := [ANode bel]; timestep := AInt 2 |}]
  = Raise IndexError.
Proof.
  apply (all_missing_variable_raises es3 _
           {| pyomo_tuple := ("Bus", "slack", PTuple [ANode bel; AInt 0]);
              value := None; variable_name := "slack";
              oemof_tuple := [ANode bel]; timestep := AInt 0 |}).
  - apply (@bool_decide_unpack _ (no_duplicate_cells_dec _)).
    vm_compute. exact I.
  - reflexivity.
  - left.
  - intros r Hr _. repeat (apply elem_of_cons in Hr as [->|Hr]; [done|]).
    by apply elem_of_nil in Hr.
Defined.

Lemma scalar_only_key_raises_witness :
  split_group es3
    [{| pyomo_tuple := ("Storage", "invest", PAtom (ANode storage));
        value := Some (7 # 1); variable_name := "invest";
        oemof_tuple := [ANode storage]; timestep := AInt 0 |}]
  = Raise ValueError.
Proof.
  apply (scalar_only_key_raises es3 _
           {| pyomo_tuple := ("Storage", "invest", PAtom (ANode storage));
              value := Some (7 # 1); variable_name := "invest";
              oemof_tuple := [ANode storage]; timestep := AInt 0 |}).
  - left.
  - intros r Hr. apply list_elem_of_singleton in Hr as ->. reflexivity.
  - simpl. lia.
Defined.

Lemma single_step_has_no_scalars_witness :
  scalars {| scalars := [];
             sequences := {| index := [10];
                             columns := [("invest", [Some (7 # 1)])] |} |}
    = [].
Proof.
  exact (proj1 (single_step_has_no_scalars {| timeindex := [10] |}
           [{| pyomo_tuple := ("Storage", "invest", PAtom (ANode storage));
               value := Some (7 # 1); variable_name := "invest";
               oemof_tuple := [ANode storage]; timestep := AInt 0 |}]
           _ eq_refl ltac:(vm_compute; reflexivity))).
Defined.

(** ** From the groups to the store *)

Lemma foldM_Raise_step {A B : Type} (f : B → A → res B) (l : list A)
    (b : B) (e : exn) :
  foldM f b l = Raise e → ∃ x b', x ∈ l ∧ f b' x = Raise e.
Proof.
  revert b; induction l as [|x l IH]; intros b H; simpl in H; [done|].
  destruct (f b x) as [b'|e'] eqn:Hf; simpl in H.
  - destruct (IH _ H) as (y & b'' & Hy & Hfy). exists y, b''.
    split; [by right|done].
  - injection H as ->. exists x, b. split; [left|done].
Qed.

Lemma groupby_keys_NoDup (df : list df_row) :
  NoDup (groupby_oemof_tuple df).*1.
Proof. rewrite groupby_keys. apply NoDup_sort_by, NoDup_remove_dups. Qed.

Lemma elem_of_groupby (df : list df_row) (g : list atom * list df_row) :
  g ∈ groupby_oemof_tuple df ↔
  (∃ r, r ∈ df ∧ oemof_tuple r = g.1) ∧ g.2 = rows_of_key g.1 df.
Proof.
  unfold groupby_oemof_tuple. rewrite list_elem_of_fmap. split.
  - intros (k & -> & Hk). simpl. split; [|done].
    rewrite elem_of_sort_by, elem_of_remove_dups, list_elem_of_fmap in Hk.
    destruct Hk as (r & -> & Hr). eauto.
  - intros [(r & Hr & Hk) Hrows]. exists g.1. split.
    + destruct g as [k v]. simpl in *. by subst.
    + rewrite elem_of_sort_by, elem_of_remove_dups, list_elem_of_fmap.
      eauto.
Qed.

(** The first loop leaves one entry per group, in the order of the groups:
    the split of the group's rows. *)
Lemma split_groups_entries (es : EnergySystem)
    (groups : list (list atom * list df_row)) (r : store) :
  NoDup groups.*1 →
  split_groups es groups = Ok r →
  Forall2 (λ g kv, kv.1 = g.1 ∧ split_group es g.2 = Ok kv.2) groups r.
Proof.
  unfold split_groups.
  cut (∀ acc : store,
         NoDup (acc.*1 ++ groups.*1) →
         foldM (λ results kv,
                  e ← split_group es kv.2; Ok (dict_set kv.1 e results))
               acc groups = Ok r →
         ∃ r', r = acc ++ r' ∧
               Forall2 (λ g kv, kv.1 = g.1 ∧ split_group es g.2 = Ok kv.2)
                       groups r').
  { intros H Hnd Hr. destruct (H [] Hnd Hr) as (r' & -> & HF). done. }
  induction groups as [|g groups IH]; intros acc Hnd H; simpl in H.
  - injection H as <-. exists []. by rewrite app_nil_r.
  - inv_bind H. inv_bind Ha. injection Ha as <-.
    rewrite fmap_cons in Hnd.
    rewrite dict_set_new in H.
    2:{ apply NoDup_app in Hnd as (_ & Hdis & _).
        intros Hin. apply (Hdis _ Hin). left. }
    destruct (IH (acc ++ [(g.1, a0)])) as (r' & -> & HF); [|done|].
    { rewrite fmap_app. simpl. rewrite <- app_assoc. done. }
    exists ((g.1, a0) :: r'). split; [by rewrite <- app_assoc|].
    by constructor.
Qed.

Lemma split_groups_Raise (es : EnergySystem)
    (groups : list (list atom * list df_row)) (e : exn) :
  split_groups es groups = Raise e →
  ∃ g, g ∈ groups ∧ split_group es g.2 = Raise e.
Proof.
  intros (g & b & Hg & Hf)%foldM_Raise_step. exists g. split; [done|].
  destruct (split_group es g.2) as [?|e']; simpl in Hf; [done|].
  by injection Hf as ->.
Qed.

Lemma split_group_Raise_kind (es : EnergySystem) (v : list df_row)
    (e : exn) :
  split_group es v = Raise e → e = ValueError ∨ e = IndexError.
Proof.
  rewrite split_group_cases.
  destruct (decide (no_duplicate_cells v)); [|intros [= <-]; auto].
  destruct (decide (aligned es v)); [|intros [= <-]; auto].
  destruct (iloc0 _) as [s|e'] eqn:Hs; simpl; [done|].
  apply iloc0_dropna_not_Ok in Hs as [-> _]. intros [= <-]. auto.
Qed.

Lemma mapM_Raise_inv {A B : Type} (f : A → res B) (l : list A) (e : exn) :
  mapM f l = Raise e → ∃ x, x ∈ l ∧ f x = Raise e.
Proof.
  induction l as [|x l IH]; simpl; [done|].
  destruct (f x) as [y|e'] eqn:Hf; simpl.
  - destruct (mapM f l) as [k|e'']; simpl; [done|].
    intros [= ->]. destruct IH as (z & Hz & Hfz); [done|].
    exists z. split; [by right|done].
  - intros [= ->]. exists x. split; [left|done].
Qed.

Lemma dual_value_Raise (d : list (Node * Z * Q)) (b : Node) (t : Z)
    (e : exn) :
  dual_value d b t = Raise e → e = KeyError ∧ dict_get (b, t) d = None.
Proof.
  unfold dual_value. destruct (dict_get (b, t) d); [done|].
  by intros [= <-].
Qed.

Lemma add_bus_duals_Raise_kind (es : EnergySystem) (d : list (Node * Z * Q))
    (r : store) (grp : Node * list (Node * Z)) (e : exn) :
  add_bus_duals es d r grp = Raise e → e = KeyError ∨ e = ValueError.
Proof.
  unfold add_bus_duals.
  destruct (mapM _ grp.2) as [duals|e'] eqn:Hm; simpl.
  - rewrite DataFrame_duals_timeindex.
    destruct (decide _); simpl; [|intros [= <-]; auto].
    destruct (dict_get _ r); [|done].
    unfold set_column. destruct (decide _); simpl; [done|intros [= <-]; auto].
  - intros [= ->]. left.
    apply mapM_Raise_inv in Hm as (p & _ & Hp).
    by apply dual_value_Raise in Hp as [-> _].
Qed.

Lemma add_duals_Raise_kind (es : EnergySystem) (om : OperationalModel)
    (r : store) (e : exn) :
  add_duals es om r = Raise e → e = KeyError ∨ e = ValueError.
Proof.
  unfold add_duals. destruct (dual om) as [d|]; [|done].
  intros (grp & r' & _ & H)%foldM_Raise_step.
  by eapply add_bus_duals_Raise_kind.
Qed.

(** X12: for a model whose record indices, where they hold a tuple or a
    node, have the documented shapes (entities, optionally followed by an
    integer time step), so that sorting the rows raises nothing: which
    exception [results_to_dict] raises tells the stage that failed.  A
    [TypeError] comes from a record without tuple or node in its index, and
    only from there; an [IndexError] only from the split of a relation key;
    a [KeyError] only from reading a dual value; a [ValueError] from the
    split of a relation key or from attaching the duals; and
    [keys_as_strings] never changes the exception. *)
Theorem results_to_dict_exception_stage
    (es : EnergySystem) (om : OperationalModel) (keys_as_strings : bool)
    (e : exn) :
  comparable_indices om →
  results_to_dict es om keys_as_strings = Raise e →
  results_to_dict es om (negb keys_as_strings) = Raise e ∧
  match e with
  | TypeError =>
      ∃ kv, kv ∈ var_dict om ∧ no_entity_reference (elements kv.1)
  | IndexError =>
      ∃ df g, results_to_df es om = Ok df ∧ g ∈ groupby_oemof_tuple df ∧
              split_group es g.2 = Raise IndexError
  | KeyError =>
      ∃ df r, results_to_df es om = Ok df ∧
              split_groups es (groupby_oemof_tuple df) = Ok r ∧
              add_duals es om r = Raise KeyError
  | ValueError =>
      ∃ df, results_to_df es om = Ok df ∧
        ((∃ g, g ∈ groupby_oemof_tuple df ∧
               split_group es g.2 = Raise ValueError) ∨
         (∃ r, split_groups es (groupby_oemof_tuple df) = Ok r ∧
               add_duals es om r = Raise ValueError))
  end.
Proof.
  unfold results_to_dict. intros _ H.
  destruct (results_to_df es om) as [df|e0] eqn:Hdf; simpl in *.
  - destruct (split_groups es _) as [r|e1] eqn:Hsg; simpl in *.
    + destruct (add_duals es om r) as [r'|e2] eqn:Had; simpl in *; [done|].
      injection H as ->. split; [done|].
      destruct (add_duals_Raise_kind _ _ _ _ Had) as [->| ->]; eauto 10.
    + injection H as ->. split; [done|].
      destruct (split_groups_Raise _ _ _ Hsg) as (g & Hg & Hsplit).
      destruct (split_group_Raise_kind _ _ _ Hsplit) as [->| ->]; eauto 10.
  - injection H as ->. split; [done|].
    apply results_to_df_Raise_inv in Hdf as [-> Hkv]. done.
Qed.

Lemma results_to_dict_exception_stage_witness :
  results_to_dict es3 om_duals_short true = Raise ValueError ∧
  ∃ df, results_to_df es3 om_duals_short = Ok df ∧
    ((∃ g, g ∈ groupby_oemof_tuple df ∧
           split_group es3 g.2 = Raise ValueError) ∨
     (∃ r, split_groups es3 (groupby_oemof_tuple df) = Ok r ∧
           add_duals es3 om_duals_short r = Raise ValueError)).
Proof.
  exact (results_to_dict_exception_stage es3 om_duals_short false
           ValueError
           (comparable_indices_check om_duals_short
              ltac:(vm_compute; reflexivity))
           ltac:(vm_compute; reflexivity)).
Defined.

(** ** Variables of the same name *)

Lemma get_tuple_elements (k : pyomo_key) :
  get_tuple (elements k) = get_tuple [k.2].
Proof. done. Qed.

Lemma split_group_duplicate (es : EnergySystem) (v : list df_row)
    (r1 r2 : df_row) :
  r1 ∈ v → r2 ∈ v → r1 ≠ r2 →
  timestep r1 = timestep r2 → variable_name r1 = variable_name r2 →
  split_group es v = Raise ValueError.
Proof.
  intros H1 H2 Hne Ht Hn. rewrite split_group_cases.
  rewrite decide_False; [done|]. intros Hnd. apply Hne.
  apply (NoDup_fmap_inj_on (λ r, (timestep r, variable_name r)) v);
    [done..|by f_equal].
Qed.

Lemma results_to_dict_group_fails (es : EnergySystem) (om : OperationalModel)
    (keys_as_strings : bool) (df : list df_row)
    (g : list atom * list df_row) :
  results_to_df es om = Ok df →
  g ∈ groupby_oemof_tuple df →
  is_ok (split_group es g.2) = false →
  ∃ e, results_to_dict es om keys_as_strings = Raise e ∧
       (e = ValueError ∨ e = IndexError).
Proof.
  intros Hdf Hg Hfail. unfold results_to_dict. rewrite Hdf, bind_Ok_l.
  destruct (split_groups es (groupby_oemof_tuple df)) as [r|e] eqn:Hsg.
  - assert (is_ok (split_groups es (groupby_oemof_tuple df)) = false) as H.
    { apply foldM_not_ok. exists g. split; [done|]. intros b'.
      by destruct (split_group es g.2). }
    by rewrite Hsg in H.
  - exists e. split; [done|].
    apply split_groups_Raise in Hsg as (g' & _ & Hsplit).
    by eapply split_group_Raise_kind.
Qed.

(** X9: the block of a variable is not part of its name in the result.
    In a model whose record indices have the documented shapes (entities,
    optionally followed by an integer time step), so that the rows can be
    sorted: when two records differ in the block name alone, having the
    same variable name and the same index, both fall into one cell of the
    table of their relation key, splitting that key raises a [ValueError],
    and [results_to_dict] returns nothing: it raises a [ValueError] or an
    [IndexError]. *)
Theorem same_name_variables_collide
    (es : EnergySystem) (om : OperationalModel) (keys_as_strings : bool)
    (kv1 kv2 : pyomo_key * option Q) :
  kv1 ∈ var_dict om → kv2 ∈ var_dict om →
  kv1.1.1.1 ≠ kv2.1.1.1 →
  kv1.1.1.2 = kv2.1.1.2 →
  kv1.1.2 = kv2.1.2 →
  (∀ kv, kv ∈ var_dict om → get_tuple (elements kv.1) ≠ None) →
  comparable_indices om →
  split_group es (rows_of_key (oemof_tuple (row_of kv1)) (df_of es om))
    = Raise ValueError ∧
  ∃ e, results_to_dict es om keys_as_strings = Raise e ∧
       (e = ValueError ∨ e = IndexError).
Proof.
  intros H1 H2 Hblock Hname Hidx Hall _.
  pose proof (results_to_df_rows es om Hall) as Hdf.
  unfold df_of. rewrite Hdf.
  set (df := sort_values (map row_of (var_dict om))) in *.
  assert (∀ kv, kv ∈ var_dict om → row_of kv ∈ df) as Hin.
  { intros kv Hkv. unfold df, sort_values. apply elem_of_sort_by.
    by apply list_elem_of_fmap_2. }
  assert (get_tuple (elements kv1.1) = get_tuple (elements kv2.1)) as Htup
    by by rewrite !get_tuple_elements, Hidx.
  assert (oemof_tuple (row_of kv1) = oemof_tuple (row_of kv2)) as Hkey
    by (unfold row_of; cbn [oemof_tuple]; by rewrite Htup).
  assert (split_group es (rows_of_key (oemof_tuple (row_of kv1)) df)
            = Raise ValueError) as Hsplit.
  { apply (split_group_duplicate es _ (row_of kv1) (row_of kv2)).
    - apply list_elem_of_filter. auto.
    - apply list_elem_of_filter. auto.
    - intros Heq. apply Hblock.
      apply (f_equal pyomo_tuple) in Heq. simpl in Heq. by rewrite Heq.
    - unfold row_of; cbn [timestep]. by rewrite Htup.
    - done. }
  split; [done|].
  apply (results_to_dict_group_fails es om keys_as_strings df
           (oemof_tuple (row_of kv1),
            rows_of_key (oemof_tuple (row_of kv1)) df)); [done| |].
  - apply elem_of_groupby. split; [|done]. exists (row_of kv1). auto.
  - cbn [snd]. by rewrite Hsplit.
Qed.

Lemma same_name_variables_collide_witness :
  ∃ e, results_to_dict {| timeindex := [10] |} om_same_name false = Raise e ∧
       (e = ValueError ∨ e = IndexError).
Proof.
  refine (proj2 (same_name_variables_collide {| timeindex := [10] |}
            om_same_name false
            (("InvestmentFlow", "invest", PTuple [ANode pp_gas; ANode bel]),
             Some (5 # 1))
            (("Flow", "invest", PTuple [ANode pp_gas; ANode bel]),
             Some (6 # 1)) _ _ _ _ _ _ _)).
  - vm_compute. left.
  - vm_compute. right. left.
  - discriminate.
  - reflexivity.
  - reflexivity.
  - intros kv Hkv. vm_compute in Hkv.
    repeat (apply elem_of_cons in Hkv as [->|Hkv]; [discriminate|]).
    by apply elem_of_nil in Hkv.
  - apply comparable_indices_check. vm_compute. reflexivity.
Defined.

(** ** Reading the duals *)

(** X13: a balance key without a dual value makes the attachment fail with
    a [KeyError].  The values of a bus are all read before the frame of its
    duals is built, so for that bus the [KeyError] comes whatever the
    number of its keys is, and [results_to_dict] returns nothing. *)
Theorem missing_dual_raises_KeyError
    (es : EnergySystem) (om : OperationalModel) (d : list (Node * Z * Q))
    (b : Node) (t : Z) (keys_as_strings : bool) :
  dual om = Some d →
  (b, t) ∈ Bus_balance om →
  dict_get (b, t) d = None →
  (∃ g, (b, g) ∈ groupby_bus (sort_by balance_leb (Bus_balance om)) ∧
        ∀ r, add_bus_duals es d r (b, g) = Raise KeyError) ∧
  (∀ r, ∃ e, add_duals es om r = Raise e ∧
             (e = KeyError ∨ e = ValueError)) ∧
  is_ok (results_to_dict es om keys_as_strings) = false.
Proof.
  intros Hd Hb Hnone.
  set (l := sort_by balance_leb (Bus_balance om)).
  pose proof (sorted_Bus_balance (Bus_balance om)) as Hs. fold l in Hs.
  destruct (groupby_bus_sorted l Hs) as [Hnd Hgrp].
  assert ((b, t) ∈ l) as Hbl by by apply elem_of_sort_by.
  destruct (groupby_bus_covers l _ Hbl) as [g Hg]. simpl in Hg.
  assert (∀ r, add_bus_duals es d r (b, g) = Raise KeyError) as Hstep.
  { intros r. unfold add_bus_duals. cbn [fst snd].
    rewrite (mapM_Raise _ KeyError); [done| |].
    - intros p _. unfold dual_value.
      destruct (dict_get (b, p.2) d); [by left|by right].
    - exists (b, t). split.
      + rewrite (Hgrp _ _ Hg). by apply list_elem_of_filter.
      + unfold dual_value. simpl. by rewrite Hnone. }
  assert (∀ r, is_ok (add_duals es om r) = false) as Hfail.
  { intros r. unfold add_duals. rewrite Hd. apply foldM_not_ok.
    exists (b, g). split; [done|]. intros r'. by rewrite Hstep. }
  split; [eauto|]. split.
  - intros r. specialize (Hfail r).
    destruct (add_duals es om r) as [?|e] eqn:Had; [done|].
    exists e. split; [done|]. by eapply add_duals_Raise_kind.
  - unfold results_to_dict.
    destruct (results_to_df es om); [|done]. rewrite bind_Ok_l.
    destruct (split_groups es _) as [r|]; [|done]. rewrite bind_Ok_l.
    specialize (Hfail r). by destruct (add_duals es om r).
Qed.

Lemma missing_dual_raises_KeyError_witness :
  is_ok (results_to_dict es3 om_dual_missing false) = false.
Proof.
  refine (proj2 (proj2 (missing_dual_raises_KeyError es3 om_dual_missing
            [((bel, 0), 11 # 10); ((bel, 1), 22 # 10)] bel 2 false
            eq_refl _ eq_refl))).
  vm_compute. right. right. left.
Defined.

(** ** The entries of the store *)

Lemma dict_get_NoDup_elem {K : Type} `{EqDecision K} {V : Type}
    (d : list (K * V)) (k : K) (v : V) :
  NoDup d.*1 → (k, v) ∈ d → dict_get k d = Some v.
Proof.
  induction d as [|[k' v'] d IH]; [by intros _ ?%elem_of_nil|].
  rewrite fmap_cons, NoDup_cons. intros [Hk Hnd] Hin. simpl.
  apply elem_of_cons in Hin as [[= -> ->]|Hin].
  - by rewrite decide_True.
  - rewrite decide_False; [by apply IH|].
    intros ->. apply Hk, list_elem_of_fmap. by exists (k', v).
Qed.

Lemma split_groups_get (es : EnergySystem) (df : list df_row) (r : store)
    (k : list atom) :
  split_groups es (groupby_oemof_tuple df) = Ok r →
  match dict_get k r with
  | Some e =>
      (∃ row, row ∈ df ∧ oemof_tuple row = k) ∧
      split_group es (rows_of_key k df) = Ok e
  | None => ¬ ∃ row, row ∈ df ∧ oemof_tuple row = k
  end.
Proof.
  intros Hsg.
  pose proof (split_groups_entries es _ r (groupby_keys_NoDup df) Hsg) as HF.
  pose proof (split_groups_NoDup _ _ _ Hsg) as Hnd.
  destruct (dict_get k r) as [e|] eqn:Hget.
  - apply dict_get_elem_of in Hget.
    apply list_elem_of_lookup in Hget as [i Hi].
    destruct (Forall2_lookup_r _ _ _ _ _ HF Hi) as (g & Hg & Hk & Hsplit).
    simpl in *. subst k.
    apply list_elem_of_lookup_2, elem_of_groupby in Hg as [Hrow Hrows].
    split; [done|]. by rewrite <- Hrows.
  - intros (row & Hrow & Hk).
    assert ((k, rows_of_key k df) ∈ groupby_oemof_tuple df) as Hg.
    { apply elem_of_groupby. split; [by exists row|done]. }
    apply list_elem_of_lookup in Hg as [i Hi].
    destruct (Forall2_lookup_l _ _ _ _ _ HF Hi) as ([k' e] & He & Hk' & _).
    simpl in *. subst k'.
    apply list_elem_of_lookup_2 in He.
    by rewrite (dict_get_NoDup_elem r k e Hnd He) in Hget.
Qed.

Lemma add_duals_only_duals (es : EnergySystem) (om : OperationalModel)
    (r r' : store) :
  add_duals es om r = Ok r' →
  only_duals_added
    (λ b, is_Some (dual om) ∧ ∃ t, (b, t) ∈ Bus_balance om) r r'.
Proof.
  unfold add_duals. destruct (dual om) as [d|] eqn:Hd.
  - apply foldM_only_duals.
    eapply Forall_impl; [apply groupby_bus_balanced|].
    intros grp [t Ht]. split; [done|]. exists t.
    by apply elem_of_sort_by in Ht.
  - intros [= <-]. apply only_duals_added_refl.
Qed.

Lemma add_duals_bus_present (es : EnergySystem) (om : OperationalModel)
    (r r' : store) (b : Node) (t : Z) :
  is_Some (dual om) → (b, t) ∈ Bus_balance om →
  add_duals es om r = Ok r' → is_Some (dict_get [ANode b] r').
Proof.
  intros [d Hd] Hb H. unfold add_duals in H. rewrite Hd in H.
  set (l := sort_by balance_leb (Bus_balance om)) in *.
  pose proof (sorted_Bus_balance (Bus_balance om)) as Hs. fold l in Hs.
  destruct (groupby_bus_sorted l Hs) as [Hnd _].
  assert ((b, t) ∈ l) as Hbl by by apply elem_of_sort_by.
  destruct (groupby_bus_covers l _ Hbl) as [g Hg]. simpl in Hg.
  destruct (foldM_add_bus_duals_at _ _ _ _ _ _ _ Hnd Hg H)
    as (duals & _ & _ & _ & ->). done.
Qed.

(** X10: the store [results_to_dict] returns has one entry for every
    relation key that occurs in the rows, one for every bus with a balance
    key when the model has duals, and no other entry.  The entry of a
    relation key of the rows is the split of the rows of that key, to which
    at most a ['duals'] column has been added. *)
Theorem result_store_entries
    (es : EnergySystem) (om : OperationalModel) (df : list df_row)
    (r : store) :
  results_to_df es om = Ok df →
  results_to_dict es om false = Ok r →
  NoDup r.*1 ∧
  (∀ k, is_Some (dict_get k r) ↔
        (∃ row, row ∈ df ∧ oemof_tuple row = k) ∨
        (is_Some (dual om) ∧ ∃ b t, (b, t) ∈ Bus_balance om ∧
                                      k = [ANode b])) ∧
  (∀ row, row ∈ df →
     ∃ e e0,
       dict_get (oemof_tuple row) r = Some e ∧
       split_group es (rows_of_key (oemof_tuple row) df) = Ok e0 ∧
       scalars e = scalars e0 ∧
       index (sequences e) = index (sequences e0) ∧
       other_columns (sequences e) = other_columns (sequences e0)).
Proof.
  intros Hdf Hr.
  pose proof (results_to_dict_NoDup _ _ _ Hr) as Hnd.
  unfold results_to_dict in Hr. rewrite Hdf, bind_Ok_l in Hr.
  inv_bind Hr. inv_bind Hr. injection Hr as <-.
  rename a into r0, a0 into r, Ha into Hsg, Ha0 into Had.
  destruct (add_duals_only_duals _ _ _ _ Had) as [Hold Hnew].
  split; [done|]. split.
  - intros k. pose proof (split_groups_get es df r0 k Hsg) as Hk. split.
    + intros Hsome. destruct (dict_get k r0) as [e0|] eqn:H0.
      * left. by destruct Hk.
      * right. destruct (Hnew k H0) as (b & [Hdual [t Ht]] & ->).
        { by destruct Hsome as [? ->]. }
        eauto.
    + intros [Hrow|(Hdual & b & t & Hb & ->)].
      * destruct (dict_get k r0) as [e0|] eqn:H0; [|by destruct Hk].
        destruct (Hold k e0 H0) as (e & -> & _). done.
      * by eapply add_duals_bus_present.
  - intros row Hrow.
    pose proof (split_groups_get es df r0 (oemof_tuple row) Hsg) as Hk.
    destruct (dict_get (oemof_tuple row) r0) as [e0|] eqn:H0.
    + destruct Hk as [_ Hsplit].
      destruct (Hold _ e0 H0) as (e & He & Hs & Hi & Ho & _).
      exists e, e0. done.
    + exfalso. apply Hk. by exists row.
Qed.

Lemma result_store_entries_witness :
  NoDup [([ANode bel], entry_bel_duals)].*1.
Proof.
  exact (proj1 (result_store_entries es3 om_duals (df_of es3 om_duals)
           [([ANode bel], entry_bel_duals)]
           ltac:(vm_compute; reflexivity) ltac:(vm_compute; reflexivity))).
Defined.

(** ** Well-formed entries *)

Lemma split_group_wf (es : EnergySystem) (v : list df_row) (e : entry) :
  split_group es v = Ok e → entry_wf es e.
Proof.
  rewrite split_group_cases.
  destruct (decide (no_duplicate_cells v)); [|done].
  destruct (decide (aligned es v)) as [Hal|]; [|done].
  intros H. inv_bind H. injection H as <-.
  apply iloc0_dropna_Ok in Ha as (i & Hi & Hrow & _ & ->). simpl in *.
  split; [done|]. simpl. split.
  - apply Forall_forall. intros c [Hc Hnn]%elem_of_filter_bool.
    destruct (pivot_table_column_length _ _ Hc) as [_ Hlen].
    split; [|by apply not_any_null_Forall].
    rewrite Hlen, time_steps_length. exact Hal.
  - apply Forall_fmap, Forall_forall. intros c Hc. simpl.
    by eapply row_complete_lookup.
Qed.

Lemma dict_set_Forall {K : Type} `{EqDecision K} {V : Type} (P : V → Prop)
    (d : list (K * V)) (k : K) (v : V) :
  Forall (λ kv, P kv.2) d → P v → Forall (λ kv, P kv.2) (dict_set k v d).
Proof.
  intros Hd Hv. induction Hd as [|[k' v'] d Hkv Hd IH]; simpl.
  - by repeat constructor.
  - destruct (decide (k = k')); constructor; done.
Qed.

Lemma dict_get_Forall {K : Type} `{EqDecision K} {V : Type} (P : V → Prop)
    (d : list (K * V)) (k : K) (v : V) :
  Forall (λ kv, P kv.2) d → dict_get k d = Some v → P v.
Proof.
  intros Hd Hget. apply dict_get_elem_of in Hget.
  rewrite Forall_forall in Hd. by apply (Hd (k, v)).
Qed.

Lemma add_bus_duals_wf (es : EnergySystem) (d : list (Node * Z * Q))
    (r r' : store) (grp : Node * list (Node * Z)) :
  Forall (λ kv, entry_wf es kv.2) r →
  add_bus_duals es d r grp = Ok r' →
  Forall (λ kv, entry_wf es kv.2) r'.
Proof.
  intros Hr (duals & _ & Hlen & Hrows & ->)%add_bus_duals_Ok.
  apply (dict_set_Forall (entry_wf es)); [done|].
  destruct (dict_get [ANode grp.1] r) as [e|] eqn:Hget; simpl.
  - pose proof (dict_get_Forall (entry_wf es) _ _ _ Hr Hget)
      as (Hidx & Hcols & Hsc).
    split; [done|]. split; [|done]. simpl.
    apply (dict_set_Forall
             (λ c, length c = length (timeindex es) ∧
                   Forall (λ x, isnull x = false) c)); [done|].
    split; [|by apply Forall_fmap, Forall_true].
    by rewrite length_map, (Hrows e eq_refl), Hidx.
  - split; [done|]. split; [|constructor]. simpl.
    constructor; [|constructor]. simpl.
    split; [by apply duals_over_timeindex_length|].
    destruct duals as [|q [|q' duals]]; cbn [duals_over_timeindex].
    + constructor.
    + by apply Forall_replicate.
    + by apply Forall_fmap, Forall_true.
Qed.

Lemma keys_to_strings_Forall (P : entry → Prop) (r : store) :
  Forall (λ kv, P kv.2) r → Forall (λ kv, P kv.2) (keys_to_strings r).
Proof.
  intros Hr. unfold keys_to_strings, dict_of_items.
  cut (∀ acc : store,
         Forall (λ kv, P kv.2) acc →
         Forall (λ kv, P kv.2)
           (foldl (λ d kv, dict_set kv.1 kv.2 d) acc
                  (map (λ kv, (str_key kv.1, kv.2)) r))).
  { intros H. apply H. constructor. }
  induction Hr as [|kv r Hkv Hr IH]; intros acc Hacc; simpl; [done|].
  apply IH. by apply (dict_set_Forall P).
Qed.

(** X11: whatever [results_to_dict] returns is well formed.  In every
    entry the sequence table is labelled by the time index, each of its
    columns has exactly one value per time step and none of them is
    missing, and every scalar is a number. *)
Theorem result_entries_well_formed
    (es : EnergySystem) (om : OperationalModel) (keys_as_strings : bool)
    (r : store) :
  results_to_dict es om keys_as_strings = Ok r →
  Forall (λ kv, entry_wf es kv.2) r.
Proof.
  unfold results_to_dict. intros H.
  inv_bind H. inv_bind H. inv_bind H. injection H as <-.
  assert (Forall (λ kv, entry_wf es kv.2) a0) as H0.
  { revert Ha0. unfold split_groups.
    apply (foldM_invariant (λ r : store, Forall (λ kv, entry_wf es kv.2) r));
      [|constructor].
    intros b g b' Hb Hstep. inv_bind Hstep. injection Hstep as <-.
    apply (dict_set_Forall (entry_wf es)); [done|].
    by eapply split_group_wf. }
  assert (Forall (λ kv, entry_wf es kv.2) a1) as H1.
  { revert Ha1. unfold add_duals. destruct (dual om) as [d|].
    - apply (foldM_invariant
               (λ r : store, Forall (λ kv, entry_wf es kv.2) r)); [|done].
      intros b g b' Hb Hstep. by eapply add_bus_duals_wf.
    - by intros [= <-]. }
  destruct keys_as_strings; [|done].
  by apply (keys_to_strings_Forall (entry_wf es)).
Qed.

Lemma result_entries_well_formed_witness :
  Forall (λ kv : list atom * entry, entry_wf es3 kv.2)
         (keys_to_strings [([ANode bel], entry_bel_duals)]).
Proof.
  exact (result_entries_well_formed es3 om_duals true
           (keys_to_strings [([ANode bel], entry_bel_duals)])
           ltac:(vm_compute; reflexivity)).
Defined.

(** ** Independence of the order of the input *)

Lemma remove_dups_perm {A : Type} `{EqDecision A} (l l' : list A) :
  l ≡ₚ l' → remove_dups l ≡ₚ remove_dups l'.
Proof.
  intros Hl. apply NoDup_Permutation; [apply NoDup_remove_dups..|].
  intros x. by rewrite !elem_of_remove_dups, Hl.
Qed.

Lemma time_steps_perm (v v' : list df_row) :
  v ≡ₚ v' → time_steps v = time_steps v'.
Proof.
  intros Hv. unfold time_steps. apply (cmp_sort_perm _ atom_cmp_ok).
  apply remove_dups_perm. by rewrite Hv.
Qed.

Lemma cell_perm (v v' : list df_row) (t : atom) (c : string) :
  no_duplicate_cells v → v ≡ₚ v' → cell v t c = cell v' t c.
Proof.
  intros Hnd Hv.
  assert (no_duplicate_cells v') as Hnd'.
  { unfold no_duplicate_cells in *. by rewrite <- Hv. }
  assert (∀ w w', no_duplicate_cells w' → w ≡ₚ w' →
            ∀ q, cell w t c = Some q → cell w' t c = Some q) as Hone.
  { intros w w' Hw' Hww q (r & Hr & <- & <- & Hq)%cell_Some.
    rewrite cell_of_row; [done..|]. by rewrite <- Hww. }
  destruct (cell v t c) as [q|] eqn:H1.
  - symmetry. by eapply Hone.
  - destruct (cell v' t c) as [q'|] eqn:H2; [|done].
    symmetry in Hv. by rewrite (Hone v' v Hnd Hv q' H2) in H1.
Qed.

Lemma pivot_table_perm (v v' : list df_row) :
  no_duplicate_cells v → v ≡ₚ v' → pivot_table v = pivot_table v'.
Proof.
  intros Hnd Hv. unfold pivot_table.
  rewrite <- (time_steps_perm v v' Hv).
  assert (sort_by string_leb (remove_dups (map variable_name v)) =
          sort_by string_leb (remove_dups (map variable_name v'))) as <-.
  { apply (cmp_sort_perm _ string_cmp_ok), remove_dups_perm. by rewrite Hv. }
  f_equal. apply map_ext. intros c. f_equal.
  apply map_ext. intros t. by apply cell_perm.
Qed.

(** The split of a relation key does not depend on the order of its
    rows. *)
Lemma split_group_perm (es : EnergySystem) (v v' : list df_row) :
  v ≡ₚ v' → split_group es v = split_group es v'.
Proof.
  intros Hv. rewrite !split_group_cases.
  assert (no_duplicate_cells v ↔ no_duplicate_cells v') as Hnd.
  { unfold no_duplicate_cells. by rewrite Hv. }
  assert (aligned es v ↔ aligned es v') as Hal.
  { unfold aligned.
    by rewrite (Permutation_length
                  (remove_dups_perm _ _ (fmap_Permutation timestep _ _ Hv))). }
  destruct (decide (no_duplicate_cells v)) as [H1|H1];
    destruct (decide (no_duplicate_cells v')) as [H1'|H1'];
    try tauto.
  destruct (decide (aligned es v)) as [H2|H2];
    destruct (decide (aligned es v')) as [H2'|H2'];
    try tauto.
  unfold scalar_columns. by rewrite (pivot_table_perm v v' H1 Hv).
Qed.

Lemma rows_of_key_perm (k : list atom) (df df' : list df_row) :
  df ≡ₚ df' → rows_of_key k df ≡ₚ rows_of_key k df'.
Proof. intros H. unfold rows_of_key. by rewrite H. Qed.

Lemma groupby_keys_perm (df df' : list df_row) :
  df ≡ₚ df' →
  sort_by tuple_leb (remove_dups (map oemof_tuple df)) =
  sort_by tuple_leb (remove_dups (map oemof_tuple df')).
Proof.
  intros H. apply (cmp_sort_perm _ tuple_cmp_ok), remove_dups_perm.
  by rewrite H.
Qed.

Lemma split_groups_perm (es : EnergySystem) (df df' : list df_row) :
  df ≡ₚ df' →
  split_groups es (groupby_oemof_tuple df) =
  split_groups es (groupby_oemof_tuple df').
Proof.
  intros H. unfold split_groups, groupby_oemof_tuple.
  rewrite <- (groupby_keys_perm df df' H).
  generalize (sort_by tuple_leb (remove_dups (map oemof_tuple df))).
  intros ks. generalize (@nil (list atom * entry)).
  induction ks as [|k ks IH]; intros acc; simpl; [done|].
  fold (rows_of_key k df). fold (rows_of_key k df').
  rewrite (split_group_perm es _ _ (rows_of_key_perm k df df' H)).
  destruct (split_group es (rows_of_key k df')); simpl; [|done].
  apply IH.
Qed.

Lemma balance_leb_antisym (p q : Node * Z) :
  balance_leb p q = true → balance_leb q p = true → p = q.
Proof.
  unfold balance_leb.
  rewrite (String.compare_antisym (label q.1) (label p.1)).
  destruct (String.compare (label p.1) (label q.1)) eqn:Hc; simpl;
    try done.
  apply String.compare_eq_iff in Hc.
  rewrite !Z.leb_le. intros H1 H2.
  destruct p as [[lp] tp], q as [[lq] tq]. simpl in *. subst.
  f_equal. lia.
Qed.

Lemma sorted_Bus_balance_perm (l l' : list (Node * Z)) :
  l ≡ₚ l' → sort_by balance_leb l = sort_by balance_leb l'.
Proof.
  intros Hl.
  apply (StronglySorted_unique_strong (λ p q, balance_leb p q = true)).
  - intros p q _ _. apply balance_leb_antisym.
  - apply sorted_Bus_balance.
  - apply sorted_Bus_balance.
  - by rewrite !sort_by_perm.
Qed.

Lemma results_to_df_perm (es : EnergySystem) (om om' : OperationalModel) :
  var_dict om ≡ₚ var_dict om' →
  match results_to_df es om, results_to_df es om' with
  | Ok df, Ok df' => df ≡ₚ df'
  | Raise e, Raise e' => e = e'
  | _, _ => False
  end.
Proof.
  intros Hvd.
  destruct (decide (Forall (λ kv : pyomo_key * option Q,
                      get_tuple (elements kv.1) ≠ None) (var_dict om)))
    as [Hall|Hex].
  - assert (Forall (λ kv : pyomo_key * option Q,
              get_tuple (elements kv.1) ≠ None) (var_dict om')) as Hall'
      by by rewrite <- Hvd.
    rewrite Forall_forall in Hall, Hall'.
    rewrite (results_to_df_rows es om Hall), (results_to_df_rows es om' Hall').
    unfold sort_values. rewrite !sort_by_perm. by rewrite Hvd.
  - apply not_Forall_Exists in Hex; [|intros kv; apply _].
    apply Exists_exists in Hex as (kv & Hkv & Hnone).
    assert (get_tuple (elements kv.1) = None) as Hn.
    { unfold compose in Hnone.
      destruct (get_tuple (elements kv.1)); [|done].
      exfalso. by apply Hnone. }
    rewrite (results_to_df_None es om) by eauto.
    rewrite (results_to_df_None es om'); [done|].
    exists kv. split; [by rewrite <- Hvd|done].
Qed.

Lemma var_dict_perm (om om' : OperationalModel) :
  block_vars om ≡ₚ block_vars om' →
  NoDup (var_items om).*1 →
  var_dict om ≡ₚ var_dict om'.
Proof.
  intros Hbv Hnd.
  assert (var_items om ≡ₚ var_items om') as Hitems
    by (unfold var_items; by rewrite Hbv).
  assert (var_dict om = var_items om) as ->
    by by apply dict_of_items_NoDup.
  assert (var_dict om' = var_items om') as ->; [|done].
  apply dict_of_items_NoDup. by rewrite <- Hitems.
Qed.

Lemma results_to_dict_perm (es : EnergySystem) (om om' : OperationalModel)
    (keys_as_strings : bool) :
  var_dict om ≡ₚ var_dict om' →
  dual om = dual om' →
  Bus_balance om ≡ₚ Bus_balance om' →
  results_to_dict es om keys_as_strings =
  results_to_dict es om' keys_as_strings.
Proof.
  intros Hvd Hd Hb. unfold results_to_dict.
  pose proof (results_to_df_perm es om om' Hvd) as Hdf.
  destruct (results_to_df es om) as [df|e],
           (results_to_df es om') as [df'|e']; try done; [|by subst].
  rewrite !bind_Ok_l, (split_groups_perm es df df' Hdf).
  destruct (split_groups es (groupby_oemof_tuple df')) as [r|]; [|done].
  rewrite !bind_Ok_l.
  assert (add_duals es om r = add_duals es om' r) as ->; [|done].
  unfold add_duals. rewrite <- Hd.
  by rewrite (sorted_Bus_balance_perm _ _ Hb).
Qed.

(** X15: the order in which the set of variable components is listed does
    not show in the result.  When no two records get the same Pyomo key,
    listing the components in another order gives the same store, or the
    same exception. *)
Theorem result_independent_of_component_order
    (es : EnergySystem) (om om' : OperationalModel)
    (keys_as_strings : bool) :
  block_vars om ≡ₚ block_vars om' →
  dual om = dual om' →
  Bus_balance om = Bus_balance om' →
  NoDup (var_items om).*1 →
  results_to_dict es om keys_as_strings =
  results_to_dict es om' keys_as_strings.
Proof.
  intros Hbv Hd Hb Hnd. apply results_to_dict_perm; [|done|by rewrite Hb].
  by apply var_dict_perm.
Qed.

(** X16: the balance keys are sorted before they are grouped, so the order
    in which the model hands them out does not show in the result: the
    same store, or the same exception, comes out for any order. *)
Theorem result_independent_of_balance_key_order
    (es : EnergySystem) (om om' : OperationalModel)
    (keys_as_strings : bool) :
  block_vars om = block_vars om' →
  dual om = dual om' →
  Bus_balance om ≡ₚ Bus_balance om' →
  results_to_dict es om keys_as_strings =
  results_to_dict es om' keys_as_strings.
Proof.
  intros Hbv Hd Hb. apply results_to_dict_perm; [|done..].
  unfold var_dict. by rewrite Hbv.
Qed.

Lemma result_independent_of_component_order_witness :
  results_to_dict es3 om_invest false =
  results_to_dict es3 om_invest_rev false.
Proof.
  apply (result_independent_of_component_order es3 om_invest om_invest_rev
           false).
  - apply perm_swap.
  - reflexivity.
  - reflexivity.
  - apply (@bool_decide_unpack _ (NoDup_dec _)). vm_compute. exact I.
Defined.

Lemma result_independent_of_balance_key_order_witness :
  results_to_dict es3 om_duals false =
  results_to_dict es3 om_duals_ordered false.
Proof.
  apply (result_independent_of_balance_key_order es3 om_duals
           om_duals_ordered false).
  - reflexivity.
  - reflexivity.
  - simpl. etrans; [apply perm_swap|]. apply perm_skip, perm_swap.
Defined.

(** ** Keys as strings, for any key *)

(** X14: with [keys_as_strings=True] the call returns what it returns
    without, put into a new dict under the tuples of strings.  Every key of
    the result is the tuple of the [str] of the elements of a key of the
    store, each such tuple is a key once, and under it stands the entry of
    the last key of the store that reads so: when two keys read the same,
    the earlier entry is dropped. *)
Theorem keys_as_strings_any_key
    (es : EnergySystem) (om : OperationalModel) (r' : store)
    (k' : list atom) :
  results_to_dict es om true = Ok r' →
  ∃ r, results_to_dict es om false = Ok r ∧
       NoDup r'.*1 ∧
       (k' ∈ r'.*1 ↔ ∃ k, k ∈ r.*1 ∧ k' = str_key k) ∧
       dict_get k' r' =
         snd <$> last (filter (λ kv : list atom * entry,
                                 str_key kv.1 = k') r) ∧
       (length r' ≤ length r)%nat.
Proof.
  unfold results_to_dict. intros H.
  inv_bind H. inv_bind H. inv_bind H. injection H as <-.
  exists a1. rewrite Ha, !bind_Ok_l, Ha0, bind_Ok_l, Ha1. simpl.
  split; [done|]. unfold keys_to_strings.
  split; [apply dict_of_items_keys_NoDup|]. split; [|split].
  - rewrite dict_of_items_keys, <- list_fmap_compose.
    rewrite list_elem_of_fmap. split.
    + intros ([k e] & -> & Hin). exists k. split; [|done].
      apply list_elem_of_fmap. by exists (k, e).
    + intros (k & ([k0 e] & -> & Hin)%list_elem_of_fmap & ->).
      by exists (k0, e).
  - rewrite dict_of_items_get.
    generalize a1. clear. intros r.
    assert (∀ l : store,
              filter (λ kv : list atom * entry, kv.1 = k')
                     (map (λ kv, (str_key kv.1, kv.2)) l) =
              map (λ kv, (str_key kv.1, kv.2))
                  (filter (λ kv : list atom * entry, str_key kv.1 = k') l))
      as Hf.
    { induction l as [|[k e] l IH]; [done|].
      change (map (λ kv : list atom * entry, (str_key kv.1, kv.2))
                  ((k, e) :: l))
        with ((str_key k, e) ::
              map (λ kv : list atom * entry, (str_key kv.1, kv.2)) l).
      destruct (decide (str_key k = k')) as [Hk|Hk].
      - rewrite (filter_cons_True _ (str_key k, e)) by done.
        rewrite (filter_cons_True _ (k, e)) by done.
        rewrite IH. done.
      - rewrite (filter_cons_False _ (str_key k, e)) by done.
        rewrite (filter_cons_False _ (k, e)) by done.
        exact IH. }
    rewrite Hf. rewrite fmap_last.
    by destruct (last (filter _ r)) as [[k e]|].
  - etrans; [apply dict_of_items_length|]. by rewrite length_map.
Qed.

Lemma keys_as_strings_any_key_witness :
  ∃ r, results_to_dict es3 om_duals false = Ok r ∧
       NoDup [([AStr "bel"], entry_bel_duals)].*1 ∧
       ([AStr "bel"] ∈ [([AStr "bel"], entry_bel_duals)].*1
          ↔ ∃ k, k ∈ r.*1 ∧ [AStr "bel"] = str_key k) ∧
       dict_get [AStr "bel"] [([AStr "bel"], entry_bel_duals)] =
         snd <$> last (filter (λ kv : list atom * entry,
                                 str_key kv.1 = [AStr "bel"]) r) ∧
       (length [([AStr "bel"], entry_bel_duals)] ≤ length r)%nat.
Proof.
  exact (keys_as_strings_any_key es3 om_duals
           [([AStr "bel"], entry_bel_duals)] [AStr "bel"]
           ltac:(vm_compute; reflexivity)).
Defined.
